(** * Subscriptions plugin: recurring-charge detection and the hidden list

    A shallow embedding of [src/SubscriptionsView.svelte]:
    - the SQL text handed to [sdk.query] by [detectSubscriptions]
      (three common table expressions, a HAVING filter and an ORDER BY),
    - the JavaScript that turns every returned row into a [Subscription],
    - [hideSubscription] / [unhideSubscription] and the table
      [sys_plugin_subscriptions] they write to.

    Conventions of the embedding.
    - A number is a rational ([Q]).  A JavaScript number is a double: the
      arithmetic on the amounts ([*], [/], [Math.round]) is binary64
      arithmetic, round to nearest, ties to even ([F64]).  The database
      computes STDDEV in doubles by a running update; it returns AVG as
      the exact mean, which JavaScript reads as the nearest double.
    - A DATE is its day number ([Z]); [DATEDIFF('day', a, b)] is [b - a].
    - Where SQL leaves an order open (rows with equal ORDER BY keys, the
      order of groups, rows of a partition with equal dates) the embedding
      keeps the order of first appearance; every sort is a stable
      insertion sort.  The theorems on acceptance, on the cost
      projection, on hiding, on the calendar and on mounting are stated
      on the ledger or for whatever rows the query answers, so that they
      hold for any such order.
    - [sdk.query] / [sdk.execute] either return or throw; a thrown error is
      the left injection of a sum.  [sdk.query] returns every row as an
      array of column values. *)

From Stdlib Require Import String Ascii.
From Stdlib Require Import List ZArith QArith Qround Qabs Qpower Bool Lia.
From Stdlib Require Import ListSet Sorted Permutation.
From Stdlib Require Lqa.
Import ListNotations.

Local Open Scope Z_scope.

(* ================================================================== *)
(** ** Doubles *)

(** IEEE 754 binary64 on rationals: every finite double is a rational, and
    an operation returns the double nearest to the exact result, ties to
    the even significand.  Overflow, subnormal numbers, NaN and the sign of
    zero are left out; the amounts and day counts of a ledger are far from
    all four. *)
Module F64.

(** [2 ^ e], also for negative [e]. *)
Definition pow2 (e : Z) : Q :=
  if 0 <=? e then inject_Z (2 ^ e) else (1 # Z.to_pos (2 ^ (- e)))%Q.

(** The nearest integer, halves going to the even one. *)
Definition half_even (x : Q) : Z :=
  let f := Qfloor x in
  match (x - inject_Z f ?= 1 # 2)%Q with
  | Lt => f
  | Gt => f + 1
  | Eq => if Z.even f then f else f + 1
  end.

(** For positive [x], the [e] with [2 ^ 52 <= x / 2 ^ e < 2 ^ 53]. *)
Definition exponent (x : Q) : Z :=
  let e0 := Z.log2 (Qnum x) - Z.log2 (Zpos (Qden x)) - 52 in
  match (x / pow2 e0 ?= inject_Z (2 ^ 52))%Q with
  | Lt => e0 - 1
  | _ => e0
  end.

(** For positive [x], the nearest number with a 53-bit significand. *)
Definition nearest (x : Q) : Q :=
  let e := exponent x in
  Qred (inject_Z (half_even (x / pow2 e)) * pow2 e)%Q.

(** The double nearest to [x]. *)
Definition to_double (x : Q) : Q :=
  match Qnum x with
  | 0 => 0%Q
  | Zpos _ => nearest x
  | Zneg _ => Qred (- nearest (- x))%Q
  end.

Definition fadd (x y : Q) : Q := to_double (x + y)%Q.
Definition fsub (x y : Q) : Q := to_double (x - y)%Q.
Definition fmul (x y : Q) : Q := to_double (x * y)%Q.
Definition fdiv (x y : Q) : Q := to_double (x / y)%Q.

(** For positive [x], the 53-bit number nearest to its square root: the
    integer square root of [x] scaled into [2 ^ 104, 2 ^ 106), then one
    comparison with the square of the midpoint. *)
Definition sqrt_nearest (x : Q) : Q :=
  let e := exponent x in
  let k := (52 + e) / 2 - 52 in
  let y := (x / (pow2 k * pow2 k))%Q in
  let s := Z.sqrt (Qfloor y) in
  let n := match (y ?= (inject_Z s + (1 # 2)) * (inject_Z s + (1 # 2)))%Q with
           | Lt => s
           | Gt => s + 1
           | Eq => if Z.even s then s else s + 1
           end in
  Qred (inject_Z n * pow2 k)%Q.

Definition fsqrt (x : Q) : Q :=
  match Qnum x with
  | Zpos _ => sqrt_nearest x
  | _ => 0%Q
  end.

(** The relative error of one rounding is at most [2 ^ -53]. *)
Definition unit_roundoff : Q := 1 # 2 ^ 53.

End F64.

(* ================================================================== *)
(** ** Numbers *)

Module Num.

(** Strict comparison on rationals as a boolean. *)
Definition Qlt_bool (x y : Q) : bool := negb (Qle_bool y x).

(** JavaScript [Math.round]: the nearest integer, halves going up.  It
    is exact on the double it is given. *)
Definition Math_round (x : Q) : Z := Qfloor (x + (1 # 2))%Q.

(** The idiom [Math.round(x * 100) / 100] on a double [x]: the product
    and the quotient are rounded to doubles, so a value such as 1.005,
    whose product with 100 is the double 100.49999999999999, goes down. *)
Definition round2 (x : Q) : Q :=
  F64.fdiv (inject_Z (Math_round (F64.fmul x 100))) 100.

Definition Qsum (l : list Q) : Q := fold_right Qplus 0%Q l.

(** SQL [COUNT( * )] over the rows of a group. *)
Definition COUNT {A : Type} (l : list A) : Z := Z.of_nat (length l).

(** SQL [AVG]: groups are never empty, so the divisor is positive. *)
Definition AVG (l : list Q) : Q := (Qsum l / inject_Z (COUNT l))%Q.

(** Sum of squared deviations from the mean. *)
Definition sqdev (l : list Q) : Q :=
  Qsum (map (fun x => (x - AVG l) * (x - AVG l))%Q l).

(** The sample variance (divisor [n - 1]) in exact arithmetic; undefined
    on fewer than two values. *)
Definition VAR_SAMP (l : list Q) : option Q :=
  if COUNT l <? 2 then None
  else Some (sqdev l / inject_Z (COUNT l - 1))%Q.

(** The state of the database's STDDEV aggregate. *)
Record StddevState := mkStddevState {
  st_count : Z;
  st_mean : Q;
  st_dsquared : Q
}.

(** One value enters the aggregate: the running update of the mean and of
    the sum of squared differences, every operation on doubles. *)
Definition stddev_step (st : StddevState) (input : Q) : StddevState :=
  let count := st_count st + 1 in
  let mean_differential := F64.fdiv (F64.fsub input (st_mean st)) (inject_Z count) in
  let new_mean := F64.fadd (st_mean st) mean_differential in
  let dsquared_increment :=
    F64.fmul (F64.fsub input new_mean) (F64.fsub input (st_mean st)) in
  mkStddevState count new_mean (F64.fadd (st_dsquared st) dsquared_increment).

(** SQL [STDDEV], which is [STDDEV_SAMP]: the square root of the sum of
    squared differences over [count - 1]; NULL on fewer than two values.
    The values enter in the order of the list. *)
Definition STDDEV_SAMP (l : list Q) : option Q :=
  let st := fold_left stddev_step l (mkStddevState 0 0 0) in
  if st_count st <=? 1 then None
  else Some (F64.fsqrt (F64.fdiv (st_dsquared st) (inject_Z (st_count st - 1)))).

(** The test [STDDEV(xs) < bound] on doubles.  A NULL deviation makes the
    comparison NULL, which HAVING treats as false. *)
Definition STDDEV_lt (l : list Q) (bound : Q) : bool :=
  match STDDEV_SAMP l with
  | None => false
  | Some sd => Qlt_bool sd bound
  end.

End Num.

(* ================================================================== *)
(** ** Stable sorting *)

Section StableSort.

Context {A : Type}.
Variable leb : A -> A -> bool.

Fixpoint insert_by (x : A) (l : list A) : list A :=
  match l with
  | [] => [x]
  | y :: l' => if leb x y then x :: y :: l' else y :: insert_by x l'
  end.

Definition sort_by (l : list A) : list A := fold_right insert_by [] l.

End StableSort.

(* ================================================================== *)
(** ** The detection query *)

Module Sql.
Import Num.

(** A row of the host's [transactions] table, with the three columns the
    query reads.  [description] is nullable (the query tests it). *)
Record Transaction := mkTransaction {
  description : option string;
  amount : Q;
  transaction_date : Z
}.

(** A row that passed
    [WHERE amount < 0 AND description IS NOT NULL AND description != '']. *)
Record Charge := mkCharge {
  c_merchant : string;
  c_amount : Q;
  c_date : Z
}.

Definition where_charge (t : Transaction) : option Charge :=
  match description t with
  | None => None
  | Some d =>
      if Qlt_bool (amount t) 0 && negb (String.eqb d EmptyString)
      then Some (mkCharge d (amount t) (transaction_date t))
      else None
  end.

Fixpoint charges (txs : list Transaction) : list Charge :=
  match txs with
  | [] => []
  | t :: txs' =>
      match where_charge t with
      | Some c => c :: charges txs'
      | None => charges txs'
      end
  end.

(** Rows of the CTE [merchant_transactions]. *)
Record MerchantTransaction := mkMT {
  mt_merchant : string;
  mt_amount : Q;
  mt_date : Z;
  prev_date : option Z
}.

(** [LAG(transaction_date) OVER (... ORDER BY transaction_date)] along
    one ordered partition: every row sees the date of the row before it,
    the first row sees NULL. *)
Fixpoint LAG (prev : option Z) (rows : list Charge)
  : list MerchantTransaction :=
  match rows with
  | [] => []
  | c :: rest =>
      mkMT (c_merchant c) (c_amount c) (c_date c) prev
        :: LAG (Some (c_date c)) rest
  end.

Definition date_leb (a b : Charge) : bool := c_date a <=? c_date b.

(** The distinct values of a column, in order of first appearance. *)
Fixpoint distinct (l : list string) : list string :=
  match l with
  | [] => []
  | x :: l' => x :: filter (fun y => negb (String.eqb y x)) (distinct l')
  end.

(** [PARTITION BY description ORDER BY transaction_date]. *)
Definition partition (rows : list Charge) (d : string) : list Charge :=
  sort_by date_leb (filter (fun c => String.eqb (c_merchant c) d) rows).

Definition merchant_transactions (txs : list Transaction)
  : list MerchantTransaction :=
  let rows := charges txs in
  flat_map (fun d => LAG None (partition rows d))
           (distinct (map c_merchant rows)).

(** Rows of the CTE [merchant_intervals]. *)
Record MerchantInterval := mkMI {
  mi_merchant : string;
  mi_amount : Q;
  mi_date : Z;
  mi_interval_days : Z
}.

(** [WHERE prev_date IS NOT NULL], with
    [DATEDIFF('day', prev_date, transaction_date)]. *)
Fixpoint merchant_intervals (rows : list MerchantTransaction)
  : list MerchantInterval :=
  match rows with
  | [] => []
  | r :: rows' =>
      match prev_date r with
      | Some p =>
          mkMI (mt_merchant r) (mt_amount r) (mt_date r) (mt_date r - p)
            :: merchant_intervals rows'
      | None => merchant_intervals rows'
      end
  end.

(** A row of [merchant_stats], which is also a row of the result (the
    array [[merchant, avg_amount, ...]], by position). *)
Record Row := mkRow {
  merchant : string;
  avg_amount : Q;
  occurrence_count : Z;
  avg_interval : Q;
  stddev_interval : option Q;
  last_charge : Z;
  first_charge : Z
}.

Definition intervals (g : list MerchantInterval) : list Q :=
  map (fun r => inject_Z (mi_interval_days r)) g.

(** [MAX] / [MIN] over a column of dates; unused on an empty group. *)
Definition MAX (l : list Z) : Z :=
  match l with [] => 0 | x :: l' => fold_right Z.max x l' end.
Definition MIN (l : list Z) : Z :=
  match l with [] => 0 | x :: l' => fold_right Z.min x l' end.

(** The select list of [merchant_stats] for the rows [g] of merchant [m]. *)
Definition aggregate (m : string) (g : list MerchantInterval) : Row :=
  mkRow m
    (AVG (map (fun r => Qabs (mi_amount r)) g))
    (COUNT g + 1)
    (AVG (intervals g))
    (STDDEV_SAMP (intervals g))
    (MAX (map mi_date g))
    (MIN (map mi_date g)).

(** The double [AVG(interval_days) * 0.3]. *)
Definition stddev_bound (xs : list Q) : Q :=
  F64.fmul (F64.to_double (AVG xs)) (F64.to_double (3 # 10)).

(** The HAVING clause. *)
Definition having (g : list MerchantInterval) : bool :=
  (2 <=? COUNT g)
  && (Qle_bool 5 (AVG (intervals g)) && Qle_bool (AVG (intervals g)) 400)
  && STDDEV_lt (intervals g) (stddev_bound (intervals g)).

Definition group (rows : list MerchantInterval) (m : string)
  : list MerchantInterval :=
  filter (fun r => String.eqb (mi_merchant r) m) rows.

(** [GROUP BY merchant HAVING ...]. *)
Definition merchant_stats (rows : list MerchantInterval) : list Row :=
  map (fun m => aggregate m (group rows m))
      (filter (fun m => having (group rows m))
              (distinct (map mi_merchant rows))).

(** The ORDER BY expression [avg_amount * (365.0 / avg_interval)]. *)
Definition order_key (r : Row) : Q :=
  (avg_amount r * (365 / avg_interval r))%Q.

(** [ORDER BY ... DESC]: [a] may precede [b] when its key is not smaller. *)
Definition order_desc (a b : Row) : bool :=
  Qle_bool (order_key b) (order_key a).

(** The whole statement. *)
Definition subscription_query (txs : list Transaction) : list Row :=
  sort_by order_desc
    (merchant_stats (merchant_intervals (merchant_transactions txs))).

End Sql.

(* ================================================================== *)
(** ** The host: database and SDK calls *)

Module Sdk.

(** A row of [sys_plugin_subscriptions (merchant PRIMARY KEY, hidden_at)]. *)
Record HiddenSubscription := mkHidden {
  h_merchant : string;
  hidden_at : option Z
}.

(** The host database as the plugin sees it.  [fault], when set, is the
    error every statement throws (storage unavailable); [now] is the
    value of [NOW()]. *)
Record Database := mkDatabase {
  transactions : list Sql.Transaction;
  sys_plugin_subscriptions : list HiddenSubscription;
  fault : option string;
  now : Z
}.

(** The two statements the plugin executes.  Each carries the text the
    plugin puts between the quotes of its string literal. *)
Inductive Statement :=
| InsertOnConflictUpdate (literal : string)
| DeleteWhere (literal : string).

(** How the database reads the text between the quotes of a literal: two
    quotes in a row stand for one, and a quote on its own would end the
    literal early, which is a syntax error. *)
Fixpoint read_literal (s : string) : option string :=
  match s with
  | EmptyString => Some EmptyString
  | String c s' =>
      if Ascii.eqb c "'"
      then match s' with
           | EmptyString => None
           | String c' s'' =>
               if Ascii.eqb c' "'"
               then option_map (String "'") (read_literal s'')
               else None
           end
      else option_map (String c) (read_literal s')
  end.

Definition syntax_error : string := "syntax error".

Definition is_merchant (m : string) (r : HiddenSubscription) : bool :=
  String.eqb (h_merchant r) m.

(** [INSERT ... VALUES (m, NOW()) ON CONFLICT (merchant) DO UPDATE SET
    hidden_at = NOW()]: a row with the key is updated in place, and a
    new row is appended only when no row has the key. *)
Fixpoint upsert (m : string) (t : Z) (rows : list HiddenSubscription)
  : list HiddenSubscription :=
  match rows with
  | [] => [mkHidden m (Some t)]
  | r :: rows' =>
      if is_merchant m r then mkHidden m (Some t) :: rows'
      else r :: upsert m t rows'
  end.

(** [DELETE FROM ... WHERE merchant = m]. *)
Definition delete (m : string) (rows : list HiddenSubscription)
  : list HiddenSubscription :=
  filter (fun r => negb (is_merchant m r)) rows.

Definition set_table (db : Database) (rows : list HiddenSubscription)
  : Database :=
  mkDatabase (transactions db) rows (fault db) (now db).

(** The same database when [NOW()] has become [t]. *)
Definition at_time (t : Z) (db : Database) : Database :=
  mkDatabase (transactions db) (sys_plugin_subscriptions db) (fault db) t.

(** How many rows of the table have the key [m]. *)
Definition entries (m : string) (rows : list HiddenSubscription) : nat :=
  length (filter (is_merchant m) rows).

(** [sdk.execute]: the error, or the database after the statement. *)
Definition execute (db : Database) (st : Statement) : string + Database :=
  match fault db with
  | Some e => inl e
  | None =>
      match st with
      | InsertOnConflictUpdate lit =>
          match read_literal lit with
          | Some m =>
              inr (set_table db
                     (upsert m (now db) (sys_plugin_subscriptions db)))
          | None => inl syntax_error
          end
      | DeleteWhere lit =>
          match read_literal lit with
          | Some m =>
              inr (set_table db (delete m (sys_plugin_subscriptions db)))
          | None => inl syntax_error
          end
      end
  end.

(** [sdk.query] on the detection statement. *)
Definition query (db : Database) : string + list Sql.Row :=
  match fault db with
  | Some e => inl e
  | None => inr (Sql.subscription_query (transactions db))
  end.

(** [sdk.query] on
    [SELECT merchant FROM sys_plugin_subscriptions WHERE hidden_at IS NOT NULL]:
    one array [[merchant]] per row. *)
Definition query_hidden (db : Database) : string + list (list string) :=
  match fault db with
  | Some e => inl e
  | None =>
      inr (map (fun r => [h_merchant r])
             (filter (fun r => match hidden_at r with Some _ => true | None => false end)
                     (sys_plugin_subscriptions db)))
  end.

End Sdk.

(* ================================================================== *)
(** ** The view: component state and its functions *)

Module View.
Import Num.

Record Subscription := mkSubscription {
  merchant : string;
  amount : Q;
  frequency : string;
  interval_days : Z;
  occurrence_count : Z;
  annual_cost : Q;
  last_charge : Z;
  first_charge : Z;
  is_hidden : bool
}.

Inductive Toast :=
| toast_error (title message : string)
| toast_info (title message : string).

(** The column the table is sorted on. *)
Inductive SortBy := by_annual_cost | by_merchant | by_last_charge.

(** What the set [hiddenMerchants] can hold at run time: a merchant, or
    the value [undefined]. *)
Inductive Key := undefined | str (merchant : string).

Coercion str : string >-> Key.

Definition Key_dec (a b : Key) : {a = b} + {a <> b}.
Proof. decide equality. apply string_dec. Defined.

(** The [$state] variables, and the toasts shown so far (latest first). *)
Record State := mkState {
  subscriptions : list Subscription;
  hiddenMerchants : set Key;
  isLoading : bool;
  showHidden : bool;
  sortBy : SortBy;
  sortDesc : bool;
  toasts : list Toast
}.

Definition initial : State := mkState [] [] true false by_annual_cost true [].

(** [hiddenMerchants.has(m)]. *)
Definition has (h : set Key) (m : string) : bool :=
  set_mem Key_dec (str m) h.

(** [new Set([...h, m])]: [m] is added at the end unless present. *)
Definition Set_add (m : string) (h : set Key) : set Key :=
  set_add Key_dec (str m) h.

(** [set.delete(m)] on a copy: [m] is no longer a member. *)
Definition Set_delete (m : string) (h : set Key) : set Key :=
  remove Key_dec (str m) h.

(** [new Set(xs)]: insertion order, no duplicates. *)
Definition Set_of (xs : list Key) : set Key :=
  fold_left (fun s x => set_add Key_dec x s) xs [].

(** [r.merchant] for a row [r] of a query: the row is an array, and an
    array has no property of that name. *)
Definition property_merchant (r : list string) : Key := undefined.

(** [merchant.replace(/'/g, "''")]: every quote is doubled. *)
Fixpoint escape_quotes (s : string) : string :=
  match s with
  | EmptyString => EmptyString
  | String c s' =>
      if Ascii.eqb c "'"
      then String "'" (String "'" (escape_quotes s'))
      else String c (escape_quotes s')
  end.

(** The label chosen by the if / else-if chain. *)
Definition frequency_of (intervalDays : Z) : string :=
  if intervalDays <=? 8 then "weekly"
  else if intervalDays <=? 16 then "bi-weekly"
  else if intervalDays <=? 35 then "monthly"
  else if intervalDays <=? 100 then "quarterly"
  else if intervalDays <=? 200 then "semi-annual"
  else "annual".

(** The body of [rows.map((row) => ...)].  [row[1]] is read as the double
    nearest to the average; the product, the quotient and both roundings
    to cents are double arithmetic.  ([365 / 0] is [Infinity] in
    JavaScript and [0] here; the query never returns such a row.) *)
Definition toSubscription (hidden : set Key) (row : Sql.Row)
  : Subscription :=
  let avg_amount := F64.to_double (Sql.avg_amount row) in
  let intervalDays := Math_round (Sql.avg_interval row) in
  let annualCost := F64.fmul avg_amount (F64.fdiv 365 (inject_Z intervalDays)) in
  mkSubscription
    (Sql.merchant row)
    (round2 avg_amount)
    (frequency_of intervalDays)
    intervalDays
    (Sql.occurrence_count row)
    (round2 annualCost)
    (Sql.last_charge row)
    (Sql.first_charge row)
    (has hidden (Sql.merchant row)).

Definition with_loading (b : bool) (s : State) : State :=
  mkState (subscriptions s) (hiddenMerchants s) b (showHidden s)
          (sortBy s) (sortDesc s) (toasts s).
Definition with_subscriptions (l : list Subscription) (s : State) : State :=
  mkState l (hiddenMerchants s) (isLoading s) (showHidden s)
          (sortBy s) (sortDesc s) (toasts s).
Definition with_hidden (h : set Key) (s : State) : State :=
  mkState (subscriptions s) h (isLoading s) (showHidden s)
          (sortBy s) (sortDesc s) (toasts s).
Definition toast (t : Toast) (s : State) : State :=
  mkState (subscriptions s) (hiddenMerchants s) (isLoading s) (showHidden s)
          (sortBy s) (sortDesc s) (t :: toasts s).

(** [detectSubscriptions], given what [sdk.query] did.  The try block
    assigns [subscriptions] only when the query returned; the catch
    block only shows a toast; the finally block clears [isLoading]. *)
Definition detectSubscriptions (q : string + list Sql.Row) (s : State)
  : State :=
  let s1 := with_loading true s in
  let s2 :=
    match q with
    | inr rows =>
        with_subscriptions (map (toSubscription (hiddenMerchants s1)) rows) s1
    | inl e => toast (toast_error "Failed to detect subscriptions" e) s1
    end in
  with_loading false s2.

(** [loadHiddenMerchants]: the set becomes
    [new Set(rows.map(r => r.merchant))]; a failed read leaves the set as
    it is. *)
Definition loadHiddenMerchants (q : string + list (list string)) (s : State)
  : State :=
  match q with
  | inr rows => with_hidden (Set_of (map property_merchant rows)) s
  | inl _ => s
  end.

(** [hideSubscription], on the database and the component state. *)
Definition hideSubscription (m : string) (w : Sdk.Database * State)
  : Sdk.Database * State :=
  let (db, s) := w in
  match Sdk.execute db (Sdk.InsertOnConflictUpdate (escape_quotes m)) with
  | inr db' =>
      (db',
       toast (toast_info "Hidden"
                (m ++ " won't appear in your subscriptions"))
             (with_hidden (Set_add m (hiddenMerchants s)) s))
  | inl e => (db, toast (toast_error "Failed to hide" e) s)
  end.

(** [unhideSubscription]. *)
Definition unhideSubscription (m : string) (w : Sdk.Database * State)
  : Sdk.Database * State :=
  let (db, s) := w in
  match Sdk.execute db (Sdk.DeleteWhere (escape_quotes m)) with
  | inr db' =>
      (db',
       toast (toast_info "Restored" (m ++ " is visible again"))
             (with_hidden (Set_delete m (hiddenMerchants s)) s))
  | inl e => (db, toast (toast_error "Failed to restore" e) s)
  end.

(** A detection run against the database. *)
Definition detect (w : Sdk.Database * State) : Sdk.Database * State :=
  (fst w, detectSubscriptions (Sdk.query (fst w)) (snd w)).

(** The derived list [visibleSubscriptions]. *)
Definition visibleSubscriptions (s : State) : list Subscription :=
  filter (fun r => showHidden s || negb (has (hiddenMerchants s) (merchant r)))
         (subscriptions s).

Section SortedView.

(** [String.prototype.localeCompare] of the host: negative, zero or
    positive. *)
Variable localeCompare : string -> string -> Z.

(** The comparator handed to [sorted.sort]; dates compare as their day
    numbers do. *)
Definition comparator (by_ : SortBy) (desc : bool) (a b : Subscription) : Q :=
  let cmp :=
    match by_ with
    | by_annual_cost => (annual_cost a - annual_cost b)%Q
    | by_merchant => inject_Z (localeCompare (merchant a) (merchant b))
    | by_last_charge => inject_Z (last_charge a - last_charge b)
    end in
  if desc then (- cmp)%Q else cmp.

(** The derived list [sortedSubscriptions]: a stable sort of a copy, in
    which [a] stays ahead of [b] unless the comparator is positive. *)
Definition sortedSubscriptions (s : State) : list Subscription :=
  sort_by (fun a b => Qle_bool (comparator (sortBy s) (sortDesc s) a b) 0)
          (visibleSubscriptions s).

End SortedView.

End View.

(* ================================================================== *)
(** ** Vocabulary of the specification *)

Module Spec.
Import Num.

(** The cluster of a merchant key: its charges in ascending date order,
    as the query partitions them.  They are the charges [charges_of] of
    the ledger (lemma [cluster_perm]). *)
Definition cluster (txs : list Sql.Transaction) (key : string)
  : list Sql.Charge :=
  Sql.partition (Sql.charges txs) key.

(** The whole-day differences between consecutive dates:
    one gap less than there are dates. *)
Fixpoint gaps (dates : list Z) : list Z :=
  match dates with
  | [] => []
  | a :: rest =>
      match rest with
      | [] => []
      | b :: _ => (b - a) :: gaps rest
      end
  end.

Definition cluster_gaps (txs : list Sql.Transaction) (key : string)
  : list Q :=
  map inject_Z (gaps (map Sql.c_date (cluster txs key))).

(** The list a detection run leaves in [subscriptions]. *)
Definition detected (db : Sdk.Database) (s : View.State)
  : list View.Subscription :=
  View.subscriptions (snd (View.detect (db, s))).

(** Rounding to two decimal places, halves going up, on exact numbers. *)
Definition half_up_cents (x : Q) : Q :=
  (inject_Z (Qfloor (x * 100 + (1 # 2))) / 100)%Q.

(** Representative amount in the words of the specification: the mean of
    the absolute amounts of all charges of the cluster, to two decimals. *)
Definition representative_amount (txs : list Sql.Transaction) (key : string)
  : Q :=
  half_up_cents (AVG (map (fun c => Qabs (Sql.c_amount c)) (cluster txs key))).

(** Cost projection in the words of the specification. *)
Definition project (representative_amount : Q) (interval_days : Z) : Q :=
  half_up_cents (representative_amount * (365 / inject_Z interval_days))%Q.


(** A charge of the merchant [key], in the words of the specification: a
    transaction described [key], the description not empty, the amount
    negative. *)
Definition is_charge_of (key : string) (t : Sql.Transaction) : bool :=
  match Sql.description t with
  | Some d =>
      String.eqb d key && negb (String.eqb d EmptyString)
      && Qlt_bool (Sql.amount t) 0
  | None => false
  end.

(** The charges of [key] in the ledger, in ledger order. *)
Definition charges_of (txs : list Sql.Transaction) (key : string)
  : list Sql.Transaction :=
  filter (is_charge_of key) txs.

(** The record [r] with its [is_hidden] set to [b] when its merchant is
    [m], and [r] itself otherwise. *)
Definition flagged (m : string) (b : bool) (r : View.Subscription)
  : View.Subscription :=
  if String.eqb (View.merchant r) m
  then View.mkSubscription (View.merchant r) (View.amount r) (View.frequency r)
         (View.interval_days r) (View.occurrence_count r) (View.annual_cost r)
         (View.last_charge r) (View.first_charge r) b
  else r.

(** A list ranked as the specification words it: of two neighbours the
    earlier has the greater or equal [annual_cost]. *)
Definition ranked_by_annual_cost (l : list View.Subscription) : Prop :=
  Sorted (fun a b => (View.annual_cost b <= View.annual_cost a)%Q) l.

End Spec.

(* ================================================================== *)
(** ** Sample ledgers *)

Module Ledger.
Local Open Scope Q_scope.

Definition charge (d : string) (a : Q) (day : Z) : Sql.Transaction :=
  Sql.mkTransaction (Some d) a day.

Definition db_of (txs : list Sql.Transaction) : Sdk.Database :=
  Sdk.mkDatabase txs [] None 0.

(** Storage unavailable. *)
Definition offline (db : Sdk.Database) : Sdk.Database :=
  Sdk.mkDatabase (Sdk.transactions db) (Sdk.sys_plugin_subscriptions db)
                 (Some "database is locked"%string) (Sdk.now db).

(** Three charges of 40.00 with gaps of 31 and 30 days. *)
Definition gym : list Sql.Transaction :=
  [charge "GYM" (-40) 0; charge "GYM" (-40) 31; charge "GYM" (-40) 61].

(** Two charges only. *)
Definition twice : list Sql.Transaction :=
  [charge "CLOUD" (-5) 0; charge "CLOUD" (-5) 30].

(** One biller under two spellings, charging every 30 days. *)
Definition spotify : list Sql.Transaction :=
  [charge "SPOTIFY USA" (-(999 # 100)) 0;
   charge "SPOTIFY USA" (-(999 # 100)) 30;
   charge "SPOTIFY USA 2" (-(999 # 100)) 60;
   charge "SPOTIFY USA 2" (-(999 # 100)) 90].

(** Weekly charges of 10.00, 10.00, 10.00 and 10.01. *)
Definition paper : list Sql.Transaction :=
  [charge "PAPER" (-10) 0; charge "PAPER" (-10) 7;
   charge "PAPER" (-10) 14; charge "PAPER" (-(1001 # 100)) 21].

(** Two merchants: gaps 30, 30, 29 at 10.00 and gaps 30, 30, 30 at 10.05. *)
Definition two_plans : list Sql.Transaction :=
  [charge "A" (-10) 0; charge "A" (-10) 30;
   charge "A" (-10) 60; charge "A" (-10) 89;
   charge "B" (-(1005 # 100)) 0; charge "B" (-(1005 # 100)) 30;
   charge "B" (-(1005 # 100)) 60; charge "B" (-(1005 # 100)) 90].

(** A sign-up fee of 100.00 followed by two charges of 10.00. *)
Definition upfront : list Sql.Transaction :=
  [charge "BOX" (-100) 0; charge "BOX" (-10) 30; charge "BOX" (-10) 60].

(** Gaps of 15, 15, 23 and 27 days: mean 20, sample deviation exactly 6,
    which is 0.3 times the mean. *)
Definition on_the_boundary : list Sql.Transaction :=
  [charge "S" (-9) 0; charge "S" (-9) 15; charge "S" (-9) 30;
   charge "S" (-9) 53; charge "S" (-9) 80].

(** A charge of 5.00, then 1.00 and 1.01: the two later ones average 1.005. *)
Definition half_cent : list Sql.Transaction :=
  [charge "TEA" (-5) 0; charge "TEA" (-1) 30; charge "TEA" (-(101 # 100)) 60].

(** The record a run on [gym] produces: 40.00 every 31 days, 470.97 a year. *)
Definition gym_record : View.Subscription :=
  View.mkSubscription "GYM" (F64.to_double 40) "monthly" 31 3
                      (F64.to_double (47097 # 100)) 61 31 false.

End Ledger.

(* ================================================================== *)
(** ** The rest of the page: totals, sorting, mounting *)

Module Page.
Import Num View.

(** The test [!hiddenMerchants.has(s.merchant)]. *)
Definition not_hidden (s : State) (r : Subscription) : bool :=
  negb (has (hiddenMerchants s) (merchant r)).

(** The derived value [totalAnnualCost]: a left-to-right [reduce] from 0
    over the visible records that are not hidden. *)
Definition totalAnnualCost (s : State) : Q :=
  fold_left (fun sum r => (sum + annual_cost r)%Q)
            (filter (not_hidden s) (visibleSubscriptions s)) 0%Q.


(** The number on the card "Active Subscriptions". *)
Definition activeCount (s : State) : nat :=
  length (filter (not_hidden s) (visibleSubscriptions s)).

(** [hiddenMerchants.size], the number beside "Show hidden". *)
Definition hiddenCount (s : State) : nat := length (hiddenMerchants s).

Definition SortBy_eqb (a b : SortBy) : bool :=
  match a, b with
  | by_annual_cost, by_annual_cost => true
  | by_merchant, by_merchant => true
  | by_last_charge, by_last_charge => true
  | _, _ => false
  end.

Definition with_sort (by_ : SortBy) (desc : bool) (s : State) : State :=
  mkState (subscriptions s) (hiddenMerchants s) (isLoading s) (showHidden s)
          by_ desc (toasts s).

(** [toggleSort]: a click on the current column flips the direction, a
    click on another column selects it, descending. *)
Definition toggleSort (column : SortBy) (s : State) : State :=
  if SortBy_eqb (sortBy s) column
  then with_sort (sortBy s) (negb (sortDesc s)) s
  else with_sort column true s.


(** [viewTransactions]: the view opened and the [initialFilter] passed. *)
Definition viewTransactions (m : string) : string * string :=
  ("transactions", "description = '" ++ escape_quotes m ++ "'")%string.

(** The body of [onMount] after the refresh callback is registered:
    [ensureTable] (the table of this model exists already, and
    CREATE TABLE IF NOT EXISTS then changes nothing), then
    [loadHiddenMerchants], then [detectSubscriptions]. *)
Definition onMount (w : Sdk.Database * State) : Sdk.Database * State :=
  let db := fst w in
  detect (db, loadHiddenMerchants (Sdk.query_hidden db) (snd w)).

(** The callback given to [sdk.onDataRefresh], and the Refresh button. *)
Definition onDataRefresh (w : Sdk.Database * State) : Sdk.Database * State :=
  detect w.

(** Which of the three bodies the template renders. *)
Inductive Screen := Loading | Empty | Content.

Definition screen (s : State) : Screen :=
  if isLoading s then Loading
  else match subscriptions s with
       | [] => Empty
       | _ :: _ => Content
       end.

(** The merchants the table [sys_plugin_subscriptions] lists with a
    [hidden_at]. *)
Definition stored_hidden (db : Sdk.Database) : list string :=
  map Sdk.h_merchant
      (filter (fun r => match Sdk.hidden_at r with Some _ => true | None => false end)
              (Sdk.sys_plugin_subscriptions db)).

(** The set in memory and the table agree on who is hidden. *)
Definition in_sync (db : Sdk.Database) (s : State) : Prop :=
  forall m, has (hiddenMerchants s) m = true <-> In m (stored_hidden db).

(** A debit of the ledger described exactly [m]. *)
Definition is_debit_of (m : string) (t : Sql.Transaction) : bool :=
  match Sql.description t with
  | Some d => String.eqb d m && Qlt_bool (Sql.amount t) 0
  | None => false
  end.

(** What it means for [a] to stand before [b] in the table, by column and
    direction; [localeCompare] decides for merchants. *)
Definition in_order (localeCompare : string -> string -> Z)
  (by_ : SortBy) (desc : bool) (a b : Subscription) : Prop :=
  match by_, desc with
  | by_annual_cost, true => (annual_cost b <= annual_cost a)%Q
  | by_annual_cost, false => (annual_cost a <= annual_cost b)%Q
  | by_merchant, true => 0 <= localeCompare (merchant a) (merchant b)
  | by_merchant, false => localeCompare (merchant a) (merchant b) <= 0
  | by_last_charge, true => last_charge b <= last_charge a
  | by_last_charge, false => last_charge a <= last_charge b
  end.

(** A collation that orders strings: swapping the arguments swaps the
    sign, and "not after" is transitive. *)
Definition collation (localeCompare : string -> string -> Z) : Prop :=
  (forall a b, localeCompare a b <= 0 <-> 0 <= localeCompare b a) /\
  (forall a b c, localeCompare a b <= 0 -> localeCompare b c <= 0 ->
                 localeCompare a c <= 0).

(** A collation for examples: compare the lengths. *)
Definition by_length (a b : string) : Z :=
  Z.of_nat (String.length a) - Z.of_nat (String.length b).

(** The ledger moved by [k] days, and a record moved by [k] days. *)
Definition shift_ledger (k : Z) (txs : list Sql.Transaction)
  : list Sql.Transaction :=
  map (fun t => Sql.mkTransaction (Sql.description t) (Sql.amount t)
                                  (Sql.transaction_date t + k)) txs.

Definition shift_record (k : Z) (r : Subscription) : Subscription :=
  mkSubscription (merchant r) (amount r) (frequency r) (interval_days r)
                 (occurrence_count r) (annual_cost r)
                 (last_charge r + k) (first_charge r + k) (is_hidden r).

End Page.



(* ================================================================== *)
(** ** Facts about the stable sort *)

Section StableSortFacts.

Context {A : Type}.
Variable leb : A -> A -> bool.

Lemma insert_by_perm x l : Permutation (x :: l) (insert_by leb x l).
Proof.
  induction l as [|y l IH]; simpl; [reflexivity|].
  destruct (leb x y); [reflexivity|].
  rewrite perm_swap. now apply perm_skip.
Qed.

Lemma sort_by_perm l : Permutation l (sort_by leb l).
Proof.
  induction l as [|x l IH]; simpl; [constructor|].
  rewrite <- insert_by_perm. now apply perm_skip.
Qed.

Lemma sort_by_In x l : In x (sort_by leb l) <-> In x l.
Proof.
  split; apply Permutation_in;
    [symmetry|]; apply sort_by_perm.
Qed.

Lemma sort_by_length l : length (sort_by leb l) = length l.
Proof. symmetry. apply Permutation_length, sort_by_perm. Qed.

Hypothesis leb_total : forall a b, leb a b = true \/ leb b a = true.
Hypothesis leb_trans :
  forall a b c, leb a b = true -> leb b c = true -> leb a c = true.

Let le a b := leb a b = true.

Lemma insert_by_sorted x l :
  StronglySorted le l -> StronglySorted le (insert_by leb x l).
Proof.
  induction 1 as [|y l Hs IH Hall]; simpl.
  - repeat constructor.
  - destruct (leb x y) eqn:E.
    + constructor; [now constructor|].
      constructor; [exact E|].
      eapply Forall_impl; [|exact Hall].
      intros z Hz. now apply (leb_trans x y z).
    + constructor; [exact IH|].
      assert (Hyx : le y x) by (destruct (leb_total x y); [congruence|assumption]).
      eapply Permutation_Forall; [apply insert_by_perm|].
      now constructor.
Qed.

Lemma sort_by_sorted l : StronglySorted le (sort_by leb l).
Proof.
  induction l as [|x l IH]; simpl; [constructor|].
  now apply insert_by_sorted.
Qed.

End StableSortFacts.

Lemma StronglySorted_weaken {A : Type} (R R' : A -> A -> Prop) l :
  (forall a b, R a b -> R' a b) ->
  StronglySorted R l -> StronglySorted R' l.
Proof.
  intros HR. induction 1 as [|a l Hs IH Hall]; constructor; [exact IH|].
  eapply Forall_impl; [|exact Hall]. intros b; apply HR.
Qed.

(* ================================================================== *)
(** ** Facts about doubles *)

Section F64Facts.
Import F64.
Local Open Scope Q_scope.

Lemma pow2_Qpower e : pow2 e == 2 ^ e.
Proof.
  unfold pow2. destruct (Z.leb_spec 0 e) as [H|H].
  - now rewrite Zpower_Qpower.
  - assert (Hp : (0 < 2 ^ (- e))%Z) by (apply Z.pow_pos_nonneg; lia).
    transitivity (/ inject_Z (2 ^ (- e))).
    + destruct (2 ^ (- e))%Z as [|p|p]; try lia. reflexivity.
    + rewrite Zpower_Qpower by lia. change (inject_Z 2) with 2.
      rewrite <- Qpower_opp. now rewrite Z.opp_involutive.
Qed.

Lemma pow2_pos e : 0 < pow2 e.
Proof. rewrite pow2_Qpower. now apply Qpower_0_lt. Qed.

Lemma pow2_pred e : pow2 (e - 1) == pow2 e / 2.
Proof.
  rewrite !pow2_Qpower, Qpower_minus by discriminate. reflexivity.
Qed.

Lemma half_even_error y :
  inject_Z (half_even y) - (1 # 2) <= y /\ y <= inject_Z (half_even y) + (1 # 2).
Proof.
  unfold half_even.
  pose proof (Qfloor_le y) as Hlo. pose proof (Qlt_floor y) as Hhi.
  rewrite inject_Z_plus in Hhi. change (inject_Z 1) with 1 in Hhi.
  destruct (y - inject_Z (Qfloor y) ?= 1 # 2) eqn:E.
  - apply Qeq_alt in E.
    destruct (Z.even (Qfloor y)); rewrite ?inject_Z_plus;
      change (inject_Z 1) with 1; split; Lqa.lra.
  - apply Qlt_alt in E. split; Lqa.lra.
  - apply Qgt_alt in E. rewrite inject_Z_plus. change (inject_Z 1) with 1.
    split; Lqa.lra.
Qed.

Lemma Qmake_bounds (n : Z) (d : positive) :
  (0 < n)%Z ->
  2 ^ (Z.log2 n - Z.log2 (Zpos d) - 1) < n # d.
Proof.
  intros Hn.
  destruct (Z.log2_spec n Hn) as [Hn1 _].
  destruct (Z.log2_spec (Zpos d) eq_refl) as [_ Hd2].
  pose proof (Z.log2_nonneg n) as Ln. pose proof (Z.log2_nonneg (Zpos d)) as Ld.
  replace (Z.log2 n - Z.log2 (Zpos d) - 1)%Z
    with (Z.log2 n - Z.succ (Z.log2 (Zpos d)))%Z by lia.
  rewrite Qpower_minus by discriminate.
  change 2 with (inject_Z 2). rewrite <- !Zpower_Qpower by lia.
  rewrite (Qmake_Qdiv n d).
  rewrite Zle_Qle in Hn1. rewrite Zlt_Qlt in Hd2.
  assert (Hd0 : 0 < inject_Z (Zpos d)) by reflexivity.
  assert (Hp0 : 0 < inject_Z (2 ^ Z.log2 n)).
  { change 0 with (inject_Z 0). rewrite <- Zlt_Qlt. apply Z.pow_pos_nonneg; lia. }
  set (a := inject_Z (2 ^ Z.log2 n)) in *.
  set (b := inject_Z (2 ^ Z.succ (Z.log2 (Zpos d)))) in *.
  set (n' := inject_Z n) in *. set (d' := inject_Z (Zpos d)) in *.
  apply Qlt_shift_div_l; [Lqa.lra|].
  apply Qlt_le_trans with (a / b * b).
  - apply Qmult_lt_l; [|exact Hd2].
    apply Qlt_shift_div_l; Lqa.lra.
  - assert (E : a / b * b == a) by (field; Lqa.lra). rewrite E. exact Hn1.
Qed.

Lemma exponent_lower x :
  0 < x -> inject_Z (2 ^ 52) <= x / pow2 (exponent x).
Proof.
  intros Hx. destruct x as [n d].
  assert (Hn : (0 < n)%Z).
  { unfold Qlt in Hx. simpl in Hx. lia. }
  pose proof (Qmake_bounds n d Hn) as Hb.
  unfold exponent. cbn [Qnum Qden].
  set (e0 := (Z.log2 n - Z.log2 (Zpos d) - 52)%Z) in *.
  replace (Z.log2 n - Z.log2 (Zpos d) - 1)%Z with (51 + e0)%Z in Hb by (unfold e0; lia).
  rewrite Qpower_plus in Hb by discriminate. rewrite <- (pow2_Qpower e0) in Hb.
  pose proof (pow2_pos e0) as Hp.
  destruct ((n # d) / pow2 e0 ?= inject_Z (2 ^ 52)) eqn:E.
  - apply Qeq_alt in E. rewrite E. apply Qle_refl.
  - apply Qle_shift_div_l; [apply pow2_pos|]. rewrite pow2_pred.
    set (p := pow2 e0) in *. set (x := n # d) in *.
    change (2 ^ 51) with (2251799813685248 # 1) in Hb.
    change (inject_Z (2 ^ 52)) with (4503599627370496 # 1).
    unfold Qdiv. change (/ 2) with (1 # 2). Lqa.lra.
  - apply Qgt_alt in E. now apply Qlt_le_weak.
Qed.

Lemma nearest_error x :
  0 < x -> Qabs (nearest x - x) <= x * unit_roundoff.
Proof.
  intros Hx. unfold nearest. rewrite Qred_correct.
  pose proof (exponent_lower x Hx) as He.
  pose proof (pow2_pos (exponent x)) as Hp.
  set (p := pow2 (exponent x)) in *.
  destruct (half_even_error (x / p)) as [H1 H2].
  set (h := inject_Z (half_even (x / p))) in *.
  assert (Hxp : x == x / p * p) by (field; Lqa.lra).
  set (y := x / p) in *.
  assert (Hp2 : inject_Z (2 ^ 52) * p <= x).
  { rewrite Hxp. apply Qmult_le_compat_r; [exact He|Lqa.lra]. }
  change (inject_Z (2 ^ 52)) with (4503599627370496 # 1) in Hp2.
  unfold unit_roundoff. change (1 # 2 ^ 53) with (1 # 9007199254740992).
  assert (Ha : (h - y) * p <= (1 # 2) * p)
    by (apply Qmult_le_compat_r; Lqa.lra).
  assert (Hb : (y - h) * p <= (1 # 2) * p)
    by (apply Qmult_le_compat_r; Lqa.lra).
  assert (E1 : (h - y) * p == h * p - y * p) by ring.
  assert (E2 : (y - h) * p == y * p - h * p) by ring.
  rewrite E1 in Ha. rewrite E2 in Hb. rewrite <- Hxp in Ha, Hb.
  apply Qabs_case; intros _; Lqa.lra.
Qed.

Lemma to_double_error x :
  Qabs (to_double x - x) <= Qabs x * unit_roundoff.
Proof.
  unfold to_double. destruct x as [n d]. cbn [Qnum].
  destruct n as [|n|n].
  - apply Qle_bool_iff. reflexivity.
  - assert (Hx : 0 < Zpos n # d) by reflexivity.
    rewrite (Qabs_pos (Zpos n # d)) by now apply Qlt_le_weak.
    now apply nearest_error.
  - assert (Hx : 0 < - (Zneg n # d)) by reflexivity.
    rewrite Qred_correct.
    rewrite (Qabs_neg (Zneg n # d)) by (apply Qle_bool_iff; reflexivity).
    pose proof (nearest_error _ Hx) as H.
    set (x := Zneg n # d) in *. set (y := nearest (- x)) in *.
    unfold unit_roundoff in *. change (1 # 2 ^ 53) with (1 # 9007199254740992) in *.
    revert H. apply Qabs_case; intros H1; apply Qabs_case; intros H2 H; Lqa.lra.
Qed.

Lemma to_double_nonneg x : 0 <= x -> 0 <= to_double x.
Proof.
  intros Hx. pose proof (to_double_error x) as H.
  rewrite (Qabs_pos x Hx) in H. unfold unit_roundoff in H.
  change (1 # 2 ^ 53) with (1 # 9007199254740992) in H.
  revert H. apply Qabs_case; intros Hc H; Lqa.lra.
Qed.

End F64Facts.

(* ================================================================== *)
(** ** Arithmetic facts *)

Section NumFacts.
Import Num.
Local Open Scope Q_scope.

Lemma Qlt_bool_iff x y : Qlt_bool x y = true <-> x < y.
Proof.
  unfold Qlt_bool. rewrite negb_true_iff, <- not_true_iff_false, Qle_bool_iff.
  split; [apply Qnot_le_lt | apply Qlt_not_le].
Qed.

Lemma Math_round_Z (z : Z) : Math_round (inject_Z z) = z.
Proof.
  unfold Math_round.
  assert (Hlo : (z <= Qfloor (inject_Z z + (1 # 2)))%Z).
  { rewrite <- (Qfloor_Z z) at 1. apply Qfloor_resp_le.
    rewrite <- (Qplus_0_r (inject_Z z)) at 1.
    apply Qplus_le_r. discriminate. }
  assert (Hhi : (Qfloor (inject_Z z + (1 # 2)) < z + 1)%Z).
  { rewrite Zlt_Qlt. eapply Qle_lt_trans; [apply Qfloor_le|].
    rewrite inject_Z_plus. apply Qplus_lt_r. reflexivity. }
  lia.
Qed.

Lemma Math_round_le x y : x <= y -> (Math_round x <= Math_round y)%Z.
Proof.
  intro H. apply Qfloor_resp_le. now apply Qplus_le_l.
Qed.



(** Rounding keeps a value between two integers between them. *)
Lemma Math_round_between (a b : Z) x :
  inject_Z a <= x -> x <= inject_Z b ->
  (a <= Math_round x <= b)%Z.
Proof.
  intros Ha Hb. split.
  - rewrite <- (Math_round_Z a). now apply Math_round_le.
  - rewrite <- (Math_round_Z b). now apply Math_round_le.
Qed.

End NumFacts.

(* ================================================================== *)
(** ** Facts about the query *)

Section QueryFacts.
Import Num Sql.

Lemma distinct_In x l : In x (distinct l) <-> In x l.
Proof.
  induction l as [|y l IH]; simpl; [tauto|].
  rewrite filter_In, IH, negb_true_iff, String.eqb_neq.
  destruct (string_dec y x); intuition congruence.
Qed.

Lemma distinct_NoDup l : NoDup (distinct l).
Proof.
  induction l as [|y l IH]; simpl; constructor.
  - rewrite filter_In, String.eqb_refl. intros [_ [=]].
  - now apply NoDup_filter.
Qed.

Lemma charges_In c txs :
  In c (charges txs) <-> exists t, In t txs /\ where_charge t = Some c.
Proof.
  induction txs as [|t txs IH]; simpl.
  - split; [tauto | now intros (t & [] & _)].
  - destruct (where_charge t) as [c'|] eqn:E; simpl; rewrite IH; split.
    + intros [<-|(t' & Hin & Ht')]; eauto.
    + intros (t' & [<-|Hin] & Ht'); [left; congruence | eauto].
    + intros (t' & Hin & Ht'); eauto.
    + intros (t' & [<-|Hin] & Ht'); [congruence | eauto].
Qed.

(** Every charge is a debit with a non-empty description. *)
Lemma where_charge_spec t c :
  where_charge t = Some c ->
  description t = Some (c_merchant c) /\ c_merchant c <> EmptyString /\
  (amount t < 0)%Q /\ c_amount c = amount t /\ c_date c = transaction_date t.
Proof.
  unfold where_charge. destruct (description t) as [d|]; [|discriminate].
  destruct (Qlt_bool (amount t) 0 && negb (d =? ""))%string eqn:E; [|discriminate].
  intros [= <-]. apply andb_true_iff in E as [Ha Hd].
  apply Qlt_bool_iff in Ha. apply negb_true_iff, String.eqb_neq in Hd.
  simpl. auto.
Qed.

Lemma partition_merchant rows d c :
  In c (partition rows d) -> c_merchant c = d.
Proof.
  unfold partition. rewrite sort_by_In, filter_In, String.eqb_eq. tauto.
Qed.

Lemma partition_nil rows d :
  ~ In d (map c_merchant rows) -> partition rows d = [].
Proof.
  intros H. destruct (partition rows d) as [|c l] eqn:E; [reflexivity|].
  exfalso. apply H.
  assert (Hc : In c (partition rows d)) by (rewrite E; now left).
  pose proof (partition_merchant _ _ _ Hc) as <-.
  unfold partition in Hc. rewrite sort_by_In, filter_In in Hc.
  apply in_map, Hc.
Qed.

Lemma LAG_merchant p l r :
  In r (LAG p l) -> exists c, In c l /\ mt_merchant r = c_merchant c.
Proof.
  revert p. induction l as [|c l IH]; simpl; intros p; [tauto|].
  intros [<-|H]; [exists c; simpl; auto|].
  destruct (IH _ H) as (c' & Hc' & E). eauto.
Qed.

Lemma merchant_intervals_app a b :
  merchant_intervals (a ++ b) = merchant_intervals a ++ merchant_intervals b.
Proof.
  induction a as [|r a IH]; simpl; [reflexivity|].
  destruct (prev_date r); simpl; now rewrite IH.
Qed.

Lemma merchant_intervals_In r rows :
  In r (merchant_intervals rows) ->
  exists r', In r' rows /\ mi_merchant r = mt_merchant r'.
Proof.
  induction rows as [|r' rows IH]; simpl; [tauto|].
  destruct (prev_date r').
  - intros [<-|H]; [exists r'; simpl; auto|].
    destruct (IH H) as (x & ? & ?); eauto.
  - intros H. destruct (IH H) as (x & ? & ?); eauto.
Qed.

(** The interval rows of one partition all carry its merchant. *)
Lemma segment_merchant rows d r :
  In r (merchant_intervals (LAG None (partition rows d))) ->
  mi_merchant r = d.
Proof.
  intros H. apply merchant_intervals_In in H as (r' & Hr' & ->).
  apply LAG_merchant in Hr' as (c & Hc & ->).
  eapply partition_merchant, Hc.
Qed.

Lemma group_all m l :
  (forall r, In r l -> mi_merchant r = m) -> group l m = l.
Proof.
  intros H. unfold group. induction l as [|r l IH]; simpl; [reflexivity|].
  rewrite (H r (or_introl eq_refl)), String.eqb_refl.
  f_equal. apply IH. intros; apply H; now right.
Qed.

Lemma group_none m l :
  (forall r, In r l -> mi_merchant r <> m) -> group l m = [].
Proof.
  intros H. unfold group. induction l as [|r l IH]; simpl; [reflexivity|].
  destruct (String.eqb_spec (mi_merchant r) m) as [E|E].
  - exfalso. now apply (H r (or_introl eq_refl)).
  - apply IH. intros; apply H; now right.
Qed.

Lemma group_app m a b : group (a ++ b) m = group a m ++ group b m.
Proof. apply filter_app. Qed.

(** Grouping the concatenated segments by merchant gives back the
    segment of that merchant: GROUP BY undoes PARTITION BY. *)
Lemma group_segments (f : string -> list MerchantInterval) m ds :
  (forall d r, In r (f d) -> mi_merchant r = d) ->
  NoDup ds ->
  group (flat_map f ds) m = if in_dec string_dec m ds then f m else [].
Proof.
  intros Hf. induction 1 as [|d ds Hd Hnd IH]; simpl; [reflexivity|].
  rewrite group_app, IH.
  destruct (string_dec d m) as [->|Hne].
  - rewrite group_all by apply Hf.
    destruct (in_dec string_dec m ds); [contradiction|apply app_nil_r].
  - rewrite group_none
      by (intros r Hr; rewrite (Hf _ _ Hr); exact Hne).
    simpl. destruct (in_dec string_dec m ds); reflexivity.
Qed.

Lemma merchant_intervals_flat_map (f : string -> list MerchantTransaction) ds :
  merchant_intervals (flat_map f ds)
  = flat_map (fun d => merchant_intervals (f d)) ds.
Proof.
  induction ds as [|d ds IH]; simpl; [reflexivity|].
  now rewrite merchant_intervals_app, IH.
Qed.

(** The group of merchant [m] in [merchant_intervals] is the interval
    rows of the date-ordered partition of [m]. *)
Lemma group_partition txs m :
  group (merchant_intervals (merchant_transactions txs)) m
  = merchant_intervals (LAG None (partition (charges txs) m)).
Proof.
  unfold merchant_transactions. cbv zeta.
  rewrite merchant_intervals_flat_map.
  rewrite (group_segments
             (fun d => merchant_intervals (LAG None (partition (charges txs) d))))
    by (auto using distinct_NoDup; intros d r; apply segment_merchant).
  destruct (in_dec string_dec m _) as [Hin|Hout]; [reflexivity|].
  rewrite distinct_In in Hout. now rewrite partition_nil.
Qed.

End QueryFacts.

(* ================================================================== *)
(** ** From the query to gaps, means and deviations *)

Section Clusters.
Import Num Sql.

Lemma intervals_LAG p l :
  map mi_interval_days (merchant_intervals (LAG (Some p) l))
  = Spec.gaps (p :: map c_date l).
Proof.
  revert p. induction l as [|c l IH]; intros p; simpl; [reflexivity|].
  f_equal. apply IH.
Qed.

(** The interval column of a partition is the gap sequence of its dates. *)
Lemma intervals_gaps l :
  map mi_interval_days (merchant_intervals (LAG None l))
  = Spec.gaps (map c_date l).
Proof.
  destruct l as [|c l]; [reflexivity|]. simpl. apply intervals_LAG.
Qed.

Lemma intervals_group txs m :
  intervals (group (merchant_intervals (merchant_transactions txs)) m)
  = Spec.cluster_gaps txs m.
Proof.
  rewrite group_partition. unfold intervals, Spec.cluster_gaps, Spec.cluster.
  rewrite <- intervals_gaps. now rewrite map_map.
Qed.

Lemma gaps_cons_length a l : length (Spec.gaps (a :: l)) = length l.
Proof.
  revert a. induction l as [|b l IH]; intros a; [reflexivity|].
  change (Spec.gaps (a :: b :: l)) with ((b - a) :: Spec.gaps (b :: l)).
  cbn [length]. now rewrite IH.
Qed.

Lemma gaps_length l : length (Spec.gaps l) = pred (length l).
Proof. destruct l as [|a l]; [reflexivity|apply gaps_cons_length]. Qed.

Lemma COUNT_group txs m :
  COUNT (group (merchant_intervals (merchant_transactions txs)) m)
  = COUNT (Spec.cluster_gaps txs m).
Proof.
  unfold COUNT. rewrite <- intervals_group. unfold intervals.
  now rewrite length_map.
Qed.

Lemma merchant_stats_In row rows :
  In row (merchant_stats rows) <->
  exists m, In m (map mi_merchant rows) /\ having (group rows m) = true
            /\ row = aggregate m (group rows m).
Proof.
  unfold merchant_stats. rewrite in_map_iff. split.
  - intros (m & <- & Hm). rewrite filter_In, distinct_In in Hm.
    exists m. tauto.
  - intros (m & Hin & Hh & ->). exists m. split; [reflexivity|].
    rewrite filter_In, distinct_In. tauto.
Qed.

Lemma having_COUNT g : having g = true -> 2 <= COUNT g.
Proof.
  unfold having. rewrite !andb_true_iff, Z.leb_le. tauto.
Qed.

Lemma group_In_merchant rows m :
  group rows m <> [] -> In m (map mi_merchant rows).
Proof.
  destruct (group rows m) as [|r g] eqn:E; [congruence|]. intros _.
  assert (Hr : In r (group rows m)) by (rewrite E; now left).
  unfold group in Hr. rewrite filter_In, String.eqb_eq in Hr.
  destruct Hr as [Hr <-]. now apply in_map.
Qed.

(** A merchant has a row in the result exactly when its group passes
    HAVING; the row is then the aggregate of that group. *)
Lemma subscription_query_In row txs :
  In row (subscription_query txs) <->
  let g := group (merchant_intervals (merchant_transactions txs)) (merchant row) in
  having g = true /\ row = aggregate (merchant row) g.
Proof.
  unfold subscription_query. rewrite sort_by_In, merchant_stats_In. cbv zeta.
  split.
  - intros (m & _ & Hh & ->). simpl. auto.
  - intros [Hh E]. exists (merchant row). repeat split; try assumption.
    apply group_In_merchant. intros E0. rewrite E0 in Hh. discriminate.
Qed.

Lemma subscription_query_merchant txs m :
  (exists row, In row (subscription_query txs) /\ merchant row = m) <->
  having (group (merchant_intervals (merchant_transactions txs)) m) = true.
Proof.
  split.
  - intros (row & Hin & <-). now apply subscription_query_In in Hin.
  - intros Hh. eexists (aggregate m _). split; [|reflexivity].
    apply subscription_query_In. simpl. auto.
Qed.

(** The HAVING clause, read on the gaps of the cluster. *)
Lemma having_gaps txs m :
  having (group (merchant_intervals (merchant_transactions txs)) m) = true <->
  let g := Spec.cluster_gaps txs m in
  (2 <= length g)%nat /\ (5 <= AVG g /\ AVG g <= 400)%Q /\
  exists sd, STDDEV_SAMP g = Some sd /\ (sd < stddev_bound g)%Q.
Proof.
  unfold having. rewrite COUNT_group, intervals_group. cbv zeta.
  rewrite !andb_true_iff, Z.leb_le, !Qle_bool_iff.
  unfold STDDEV_lt, COUNT.
  destruct (STDDEV_SAMP (Spec.cluster_gaps txs m)) as [sd|]; split.
  - intros [[Hc Ha] Hs]. apply Qlt_bool_iff in Hs.
    split; [lia|]. split; [tauto|]. eauto.
  - intros (Hc & Ha & sd' & [= <-] & Hs). apply Qlt_bool_iff in Hs.
    split; [split; [lia|tauto]|exact Hs].
  - intros [_ Hs]. discriminate.
  - intros (_ & _ & sd' & [=] & _).
Qed.

End Clusters.

(* ================================================================== *)
(** ** Detection runs *)

Section Detection.
Import Num.

Lemma detect_ok db s :
  Sdk.fault db = None ->
  Spec.detected db s
  = map (View.toSubscription (View.hiddenMerchants s))
        (Sql.subscription_query (Sdk.transactions db)).
Proof.
  intros H. unfold Spec.detected, View.detect, Sdk.query. simpl.
  now rewrite H.
Qed.

(** Every detected record is the image of a row whose group passed HAVING. *)
Lemma detected_row db s r :
  Sdk.fault db = None ->
  In r (Spec.detected db s) ->
  exists row,
    In row (Sql.subscription_query (Sdk.transactions db)) /\
    r = View.toSubscription (View.hiddenMerchants s) row.
Proof.
  intros H Hr. rewrite (detect_ok _ _ H), in_map_iff in Hr.
  destruct Hr as (row & <- & Hrow). eauto.
Qed.

Lemma row_avg_interval txs row :
  In row (Sql.subscription_query txs) ->
  Sql.avg_interval row = AVG (Spec.cluster_gaps txs (Sql.merchant row)).
Proof.
  intros H. apply subscription_query_In in H as [_ E]. cbv zeta in E.
  rewrite E at 1. simpl. now rewrite intervals_group.
Qed.

Lemma row_having txs row :
  In row (Sql.subscription_query txs) ->
  let g := Spec.cluster_gaps txs (Sql.merchant row) in
  (2 <= length g)%nat /\ (5 <= AVG g /\ AVG g <= 400)%Q.
Proof.
  intros H. apply subscription_query_In in H as [Hh _]. cbv zeta in Hh.
  apply having_gaps in Hh. cbv zeta in *. tauto.
Qed.

Lemma row_occurrence_count txs row :
  In row (Sql.subscription_query txs) ->
  Sql.occurrence_count row
  = Z.of_nat (length (Spec.cluster_gaps txs (Sql.merchant row))) + 1.
Proof.
  intros H. apply subscription_query_In in H as [_ E]. cbv zeta in E.
  rewrite E at 1. simpl. now rewrite COUNT_group.
Qed.

Lemma order_desc_total a b :
  Sql.order_desc a b = true \/ Sql.order_desc b a = true.
Proof.
  unfold Sql.order_desc. rewrite !Qle_bool_iff.
  destruct (Qlt_le_dec (Sql.order_key a) (Sql.order_key b)); auto using Qlt_le_weak.
Qed.

Lemma order_desc_trans a b c :
  Sql.order_desc a b = true -> Sql.order_desc b c = true ->
  Sql.order_desc a c = true.
Proof.
  unfold Sql.order_desc. rewrite !Qle_bool_iff. intros; eapply Qle_trans; eauto.
Qed.

Lemma frequency_of_cases d :
  (d <= 8 -> View.frequency_of d = "weekly"%string) /\
  (9 <= d <= 16 -> View.frequency_of d = "bi-weekly"%string) /\
  (17 <= d <= 35 -> View.frequency_of d = "monthly"%string) /\
  (36 <= d <= 100 -> View.frequency_of d = "quarterly"%string) /\
  (101 <= d <= 200 -> View.frequency_of d = "semi-annual"%string) /\
  (200 < d -> View.frequency_of d = "annual"%string).
Proof.
  unfold View.frequency_of.
  repeat split; intros H;
    repeat match goal with
           | |- context [?a <=? ?b] => destruct (Z.leb_spec a b); try lia
           end; reflexivity.
Qed.

End Detection.

(* ================================================================== *)
(** ** The cluster of a merchant, read on the ledger *)

Section ClusterOnLedger.
Import Num Sql.

Lemma date_leb_total a b : date_leb a b = true \/ date_leb b a = true.
Proof. unfold date_leb. rewrite !Z.leb_le. lia. Qed.

Lemma date_leb_trans a b c :
  date_leb a b = true -> date_leb b c = true -> date_leb a c = true.
Proof. unfold date_leb. rewrite !Z.leb_le. lia. Qed.

Lemma cluster_sorted txs m :
  StronglySorted (fun a b => c_date a <= c_date b) (Spec.cluster txs m).
Proof.
  unfold Spec.cluster, partition.
  eapply StronglySorted_weaken;
    [|apply (sort_by_sorted date_leb date_leb_total date_leb_trans)].
  intros a b H. now apply Z.leb_le.
Qed.

Lemma StronglySorted_map {A B : Type} (f : A -> B) (R : B -> B -> Prop) l :
  StronglySorted (fun a b => R (f a) (f b)) l -> StronglySorted R (map f l).
Proof.
  induction 1 as [|a l Hs IH Hall]; simpl; constructor; [exact IH|].
  apply Forall_map. exact Hall.
Qed.


(** The WHERE clause and the partition, read on the ledger: the rows of
    the partition of [key] are the charges of [key], in ledger order. *)
Lemma partition_rows_on_ledger txs key :
  filter (fun c => String.eqb (c_merchant c) key) (charges txs)
  = map (fun t => mkCharge key (amount t) (transaction_date t))
        (Spec.charges_of txs key).
Proof.
  unfold Spec.charges_of.
  induction txs as [|t txs IH]; simpl; [reflexivity|].
  unfold where_charge, Spec.is_charge_of.
  destruct (description t) as [d|]; [|exact IH].
  destruct (Qlt_bool (amount t) 0); simpl;
    rewrite ?andb_false_r; [|exact IH].
  destruct (String.eqb d EmptyString); simpl;
    rewrite ?andb_false_r; [exact IH|].
  rewrite andb_true_r.
  destruct (String.eqb_spec d key) as [->|Hne]; simpl; [|exact IH].
  now rewrite IH.
Qed.

Lemma cluster_perm txs key :
  Permutation
    (map (fun t => mkCharge key (amount t) (transaction_date t))
         (Spec.charges_of txs key))
    (Spec.cluster txs key).
Proof.
  unfold Spec.cluster, partition. rewrite partition_rows_on_ledger.
  apply sort_by_perm.
Qed.


(** A row of the result, read on the cluster of its merchant. *)
Lemma query_row_cluster txs row :
  In row (subscription_query txs) <->
  let g := merchant_intervals (LAG None (Spec.cluster txs (merchant row))) in
  having g = true /\ row = aggregate (merchant row) g.
Proof.
  rewrite subscription_query_In. cbv zeta. now rewrite group_partition.
Qed.

Lemma row_cluster_size txs row :
  In row (subscription_query txs) ->
  occurrence_count row = Z.of_nat (length (Spec.cluster txs (merchant row))) /\
  (3 <= length (Spec.cluster txs (merchant row)))%nat.
Proof.
  intros H. rewrite (row_occurrence_count _ _ H).
  destruct (row_having _ _ H) as [Hn _].
  unfold Spec.cluster_gaps in *. rewrite length_map, gaps_length, length_map in *.
  lia.
Qed.

Lemma LAG_dates p l :
  map mi_date (merchant_intervals (LAG (Some p) l)) = map c_date l.
Proof.
  revert p. induction l as [|c l IH]; intros p; simpl; [reflexivity|].
  now rewrite IH.
Qed.

Lemma LAG_amounts p l :
  map mi_amount (merchant_intervals (LAG (Some p) l)) = map c_amount l.
Proof.
  revert p. induction l as [|c l IH]; intros p; simpl; [reflexivity|].
  now rewrite IH.
Qed.

Lemma MAX_spec x l :
  In (MAX (x :: l)) (x :: l) /\ Forall (fun y => y <= MAX (x :: l)) (x :: l).
Proof.
  simpl. induction l as [|y l [IHin IHall]]; simpl.
  - split; [now left|]. constructor; [lia|constructor].
  - inversion IHall as [|? ? Hx Hl]; subst. split.
    + destruct (Z.max_spec y (fold_right Z.max x l)) as [[_ ->]|[_ ->]].
      * destruct IHin as [E|Hin]; [now left | right; now right].
      * right. now left.
    + constructor; [lia|]. constructor; [lia|].
      eapply Forall_impl; [|exact Hl]. simpl. intros; lia.
Qed.

Lemma MIN_spec x l :
  In (MIN (x :: l)) (x :: l) /\ Forall (fun y => MIN (x :: l) <= y) (x :: l).
Proof.
  simpl. induction l as [|y l [IHin IHall]]; simpl.
  - split; [now left|]. constructor; [lia|constructor].
  - inversion IHall as [|? ? Hx Hl]; subst. split.
    + destruct (Z.min_spec y (fold_right Z.min x l)) as [[_ ->]|[_ ->]].
      * right. now left.
      * destruct IHin as [E|Hin]; [now left | right; now right].
    + constructor; [lia|]. constructor; [lia|].
      eapply Forall_impl; [|exact Hl]. simpl. intros; lia.
Qed.

(** In a date-ordered list the minimum is the date of the head. *)
Lemma MIN_sorted c l :
  StronglySorted (fun a b => c_date a <= c_date b) (c :: l) ->
  MIN (map c_date (c :: l)) = c_date c.
Proof.
  intros Hs. inversion Hs as [|? ? _ Hall]; subst.
  destruct (MIN_spec (c_date c) (map c_date l)) as [Hin Hle].
  inversion Hle as [|? ? Hle1 _]; subst.
  change (map c_date (c :: l)) with (c_date c :: map c_date l).
  destruct Hin as [E|Hin]; [now symmetry|].
  apply in_map_iff in Hin as (c' & Ecd & Hc).
  rewrite Forall_forall in Hall. specialize (Hall _ Hc). lia.
Qed.

(** The shape of the cluster behind a row: an earliest charge and at least
    two later ones, in date order, and the aggregates of the row. *)
Lemma row_shape txs row :
  In row (subscription_query txs) ->
  exists c0 c1 later,
    Spec.cluster txs (merchant row) = c0 :: c1 :: later /\
    avg_amount row = AVG (map (fun c => Qabs (c_amount c)) (c1 :: later)) /\
    first_charge row = MIN (map c_date (c1 :: later)) /\
    last_charge row = MAX (map c_date (c1 :: later)).
Proof.
  intros H. destruct (row_cluster_size _ _ H) as [_ H3].
  apply query_row_cluster in H as [_ E]. cbv zeta in E.
  destruct (Spec.cluster txs (merchant row)) as [|c0 [|c1 later]];
    simpl in H3; try lia.
  exists c0, c1, later. split; [reflexivity|].
  assert (Ed : map mi_date (merchant_intervals (LAG None (c0 :: c1 :: later)))
               = map c_date (c1 :: later))
    by exact (LAG_dates (c_date c0) (c1 :: later)).
  assert (Ea : map mi_amount (merchant_intervals (LAG None (c0 :: c1 :: later)))
               = map c_amount (c1 :: later))
    by exact (LAG_amounts (c_date c0) (c1 :: later)).
  rewrite E. unfold aggregate. cbn [avg_amount first_charge last_charge].
  rewrite Ed. repeat split.
  f_equal. rewrite <- (map_map c_amount Qabs), <- Ea, map_map. reflexivity.
Qed.

(** The charges behind a row, read on the ledger: the charges of the
    merchant can be arranged by date, an earliest one first, so that the
    aggregates of the row range over the others. *)
Lemma row_on_ledger txs row :
  In row (subscription_query txs) ->
  exists t0 t1 later,
    Permutation (t0 :: t1 :: later) (Spec.charges_of txs (merchant row)) /\
    StronglySorted Z.le (map transaction_date (t0 :: t1 :: later)) /\
    map c_date (Spec.cluster txs (merchant row))
    = map transaction_date (t0 :: t1 :: later) /\
    avg_amount row = AVG (map (fun t => Qabs (amount t)) (t1 :: later)) /\
    first_charge row = transaction_date t1 /\
    last_charge row = MAX (map transaction_date (t1 :: later)).
Proof.
  intros H. destruct (row_shape _ _ H) as (c0 & c1 & cs & Ec & Ea & Ef & El).
  pose proof (cluster_sorted txs (merchant row)) as Hs.
  pose proof (cluster_perm txs (merchant row)) as Hp.
  apply Permutation_sym, Permutation_map_inv in Hp as (l & El' & Hp).
  assert (Ed : map c_date (Spec.cluster txs (merchant row)) = map transaction_date l).
  { rewrite El', map_map. reflexivity. }
  assert (Eam : map (fun c => Qabs (c_amount c)) (Spec.cluster txs (merchant row))
                = map (fun t => Qabs (amount t)) l).
  { rewrite El', map_map. reflexivity. }
  assert (E1 : first_charge row = c_date c1).
  { rewrite Ef. apply MIN_sorted. rewrite Ec in Hs. now inversion Hs. }
  apply StronglySorted_map in Hs. rewrite Ed in Hs.
  rewrite Ec in Ed, Eam.
  destruct l as [|t0 [|t1 later]]; try discriminate Ed.
  exists t0, t1, later. split; [now apply Permutation_sym|].
  split; [exact Hs|]. split; [now rewrite Ec|].
  simpl in Ed, Eam. injection Ed as _ Ed1 Ed. injection Eam as _ Eam1 Eam.
  split; [|split].
  - rewrite Ea. simpl. now rewrite Eam1, Eam.
  - now rewrite E1.
  - rewrite El. simpl map. now rewrite Ed1, Ed.
Qed.

End ClusterOnLedger.

(* ================================================================== *)
(** ** Acceptance of a cluster *)

Section Acceptance.
Import Num.


(** The comparison is made on doubles.  The gaps 15, 15, 23, 27 have mean
    20 and, in exact arithmetic, sample variance 36: a deviation of
    exactly 6, which is not below 0.3 times 20.  The running update gives
    the double just below 6, and the merchant is detected. *)
Lemma boundary_cluster_is_detected :
  map View.merchant
      (Spec.detected (Ledger.db_of Ledger.on_the_boundary) View.initial)
  = ["S"%string] /\
  Spec.cluster_gaps Ledger.on_the_boundary "S"
  = map inject_Z [15; 15; 23; 27]%Z /\
  (exists v, VAR_SAMP (map inject_Z [15; 15; 23; 27]%Z) = Some v /\
             (v == 36)%Q) /\
  (AVG (map inject_Z [15; 15; 23; 27]%Z) == 20)%Q /\
  (exists sd, STDDEV_SAMP (map inject_Z [15; 15; 23; 27]%Z) = Some sd /\
              (sd < 6)%Q /\ (6 - (1 # 1000000000000000) < sd)%Q).
Proof.
  split; [vm_compute; reflexivity|]. split; [vm_compute; reflexivity|].
  split; [eexists; split; [vm_compute; reflexivity|reflexivity]|].
  split; [reflexivity|].
  eexists. split; [vm_compute; reflexivity|]. split; reflexivity.
Qed.

(** C5.  The frequency label of every detected record follows the
    thresholds on its rounded mean interval [d]: up to 8 weekly, 9 to 16
    bi-weekly, 17 to 35 monthly, 36 to 100 quarterly, 101 to 200
    semi-annual, above 200 annual; [d] is the mean gap of the cluster
    rounded to the nearest day. *)
Theorem C5_frequency_label (db : Sdk.Database) (s : View.State) (r : View.Subscription) :
  Sdk.fault db = None ->
  In r (Spec.detected db s) ->
  let d := View.interval_days r in
  d = Math_round (AVG (Spec.cluster_gaps (Sdk.transactions db) (View.merchant r))) /\
  (d <= 8 -> View.frequency r = "weekly"%string) /\
  (9 <= d <= 16 -> View.frequency r = "bi-weekly"%string) /\
  (17 <= d <= 35 -> View.frequency r = "monthly"%string) /\
  (36 <= d <= 100 -> View.frequency r = "quarterly"%string) /\
  (101 <= d <= 200 -> View.frequency r = "semi-annual"%string) /\
  (200 < d -> View.frequency r = "annual"%string).
Proof.
  intros Hok Hr. destruct (detected_row _ _ _ Hok Hr) as (row & Hrow & ->).
  cbv zeta. simpl. split.
  - now rewrite (row_avg_interval _ _ Hrow).
  - apply frequency_of_cases.
Qed.

(** C10.  Every detected record has an interval between 5 and 400 days
    inclusive, hence a non-zero divisor in the cost projection, counts at
    least three occurrences, and carries one of the six frequency labels,
    never the initial value. *)
Theorem C10_record_ranges (db : Sdk.Database) (s : View.State) (r : View.Subscription) :
  Sdk.fault db = None ->
  In r (Spec.detected db s) ->
  5 <= View.interval_days r <= 400 /\
  View.interval_days r <> 0 /\
  3 <= View.occurrence_count r /\
  In (View.frequency r)
     ["weekly"; "bi-weekly"; "monthly"; "quarterly"; "semi-annual"; "annual"]%string /\
  View.frequency r <> "unknown"%string.
Proof.
  intros Hok Hr. destruct (detected_row _ _ _ Hok Hr) as (row & Hrow & ->).
  simpl View.interval_days. simpl View.occurrence_count. simpl View.frequency.
  pose proof (row_having _ _ Hrow) as [Hn [Hlo Hhi]].
  rewrite <- (row_avg_interval _ _ Hrow) in Hlo, Hhi.
  pose proof (Math_round_between 5 400 _ Hlo Hhi) as Hd.
  rewrite (row_occurrence_count _ _ Hrow).
  assert (Hlab : In (View.frequency_of (Math_round (Sql.avg_interval row)))
     ["weekly"; "bi-weekly"; "monthly"; "quarterly"; "semi-annual"; "annual"]%string).
  { unfold View.frequency_of.
    repeat match goal with
           | |- context [?a <=? ?b] => destruct (a <=? b)
           end; simpl; tauto. }
  repeat split; try lia; [exact Hlab|].
  intros E. rewrite E in Hlab. simpl in Hlab.
  repeat destruct Hlab as [Hlab|Hlab]; try discriminate Hlab; exact Hlab.
Qed.

End Acceptance.

(* ================================================================== *)
(** ** Cost projection and ranking *)

Section Projection.
Import Num.
Local Open Scope Q_scope.



(** On that ledger neither the mean over all four charges nor the
    record's own rounded amount reproduces the annual cost. *)
Lemma paper_costs :
  map (fun r => (View.amount r, View.annual_cost r))
      (Spec.detected (Ledger.db_of Ledger.paper) View.initial)
  = [(F64.to_double 10, F64.to_double (5216 # 10))] /\
  Spec.project (Spec.representative_amount Ledger.paper "PAPER") 7
  == 521.43 /\
  Spec.project 10 7 == 521.43.
Proof. split; [vm_compute; reflexivity|]. split; reflexivity. Qed.

(** The aggregates of [merchant_stats] range over [merchant_intervals],
    which holds one row per gap: the earliest charge of a cluster enters
    neither the average amount nor [first_charge]. *)
Lemma aggregates_skip_earliest_charge :
  (map (fun r => (View.amount r, View.first_charge r, View.occurrence_count r))
       (Spec.detected (Ledger.db_of Ledger.upfront) View.initial)
   = [(F64.to_double 10, 30%Z, 3%Z)]) /\
  (Spec.representative_amount Ledger.upfront "BOX" == 40).
Proof. split; [vm_compute; reflexivity|reflexivity]. Qed.

(** [Math.round(x * 100) / 100] is not half-up rounding of the decimal.
    On [Ledger.half_cent] the average is 1.005; its double lies below
    1.005, the product with 100 is the double 100.49999999999999, and the
    amount of the record is 1.00, where half-up rounding gives 1.01. *)
Lemma half_cent_goes_down :
  map View.amount (Spec.detected (Ledger.db_of Ledger.half_cent) View.initial)
  = [F64.to_double 1] /\
  AVG (map (fun c => Qabs (Sql.c_amount c)) (tl (Spec.cluster Ledger.half_cent "TEA")))
  == 1.005 /\
  F64.to_double 1.005 < 1.005 /\
  F64.fmul (F64.to_double 1.005) 100 < 100.5 /\
  Spec.half_up_cents 1.005 == 1.01.
Proof.
  split; [vm_compute; reflexivity|]. repeat split.
Qed.

(** The same on two doubles: 1.005 goes to 1.00 and 34.675 to 34.67. *)
Lemma Math_round_cents_is_not_half_up :
  round2 (F64.to_double 1.005) = F64.to_double 1 /\
  Spec.half_up_cents 1.005 == 1.01 /\
  round2 (F64.to_double 34.675) = F64.to_double 34.67 /\
  Spec.half_up_cents 34.675 == 34.68.
Proof.
  split; [vm_compute; reflexivity|]. split; [reflexivity|].
  split; [vm_compute; reflexivity|reflexivity].
Qed.

(** C4, as the code has it.  The detection output lists the rows of the
    query in the order of the query, and that order is descending in the
    expression [avg_amount * (365.0 / avg_interval)], where the mean gap
    is not rounded. *)
Theorem C4_ordered_by_query_expression (db : Sdk.Database) (s : View.State) :
  Sdk.fault db = None ->
  exists rows,
    Spec.detected db s = map (View.toSubscription (View.hiddenMerchants s)) rows /\
    StronglySorted (fun a b => Sql.order_key b <= Sql.order_key a) rows /\
    forall row, In row rows ->
      Sql.order_key row
      = Sql.avg_amount row
        * (365 / AVG (Spec.cluster_gaps (Sdk.transactions db) (Sql.merchant row))).
Proof.
  intros Hok. exists (Sql.subscription_query (Sdk.transactions db)).
  split; [now apply detect_ok|]. split.
  - eapply StronglySorted_weaken;
      [|apply (sort_by_sorted Sql.order_desc order_desc_total order_desc_trans)].
    intros a b Hab. now apply Qle_bool_iff.
  - intros row Hrow. unfold Sql.order_key.
    now rewrite (row_avg_interval _ _ Hrow).
Qed.

(** C4 as stated fails on the ledger [Ledger.two_plans]: merchant A
    (annual cost 121.67) is listed before merchant B (122.28). *)
Lemma C4_counterexample :
  ~ Spec.ranked_by_annual_cost
      (Spec.detected (Ledger.db_of Ledger.two_plans) View.initial).
Proof.
  intros H. vm_compute in H.
  inversion H as [|a l _ Hd]; subst.
  inversion Hd as [|b l' Hle]; subst.
  now apply Hle.
Qed.

(** The table the user sees is sorted again by the view: with the sort
    column and direction of the initial state, [sortedSubscriptions] is
    descending in the [annual_cost] field itself, and holds the visible
    records. *)
Lemma sortedSubscriptions_descending localeCompare (s : View.State) :
  View.sortBy s = View.by_annual_cost ->
  View.sortDesc s = true ->
  StronglySorted (fun a b => View.annual_cost b <= View.annual_cost a)
                 (View.sortedSubscriptions localeCompare s) /\
  Permutation (View.visibleSubscriptions s)
              (View.sortedSubscriptions localeCompare s).
Proof.
  intros Hby Hdesc. unfold View.sortedSubscriptions. rewrite Hby, Hdesc.
  split; [|apply sort_by_perm].
  assert (Hle : forall a b,
             Qle_bool (View.comparator localeCompare View.by_annual_cost true a b) 0
             = true <-> View.annual_cost b <= View.annual_cost a).
  { intros a b. rewrite Qle_bool_iff. unfold View.comparator. split; intros H.
    - apply Qopp_le_compat in H. rewrite Qopp_involutive in H.
      change (- 0) with 0 in H.
      apply (Qplus_le_l _ _ (- View.annual_cost b)).
      now rewrite Qplus_opp_r.
    - apply (Qplus_le_l _ _ (- View.annual_cost b)) in H.
      rewrite Qplus_opp_r in H.
      apply Qopp_le_compat in H. exact H. }
  eapply StronglySorted_weaken; [intros a b; apply Hle|].
  apply sort_by_sorted.
  - intros a b. rewrite !Hle. 
    destruct (Qlt_le_dec (View.annual_cost a) (View.annual_cost b));
      auto using Qlt_le_weak.
  - intros a b c. rewrite !Hle. intros; eapply Qle_trans; eauto.
Qed.

End Projection.

(* ================================================================== *)
(** ** A failed query *)

Section FailedQuery.

(** C6, as the code has it.  When the detection query throws, the run
    shows an error toast with the message, clears the loading flag and
    leaves [subscriptions] exactly as it was before the run: empty if it
    was empty, the records of the earlier run otherwise.  Nothing is made
    up, and the hidden set and the database are untouched. *)
Theorem C6_failed_query_keeps_list (db : Sdk.Database) (s : View.State) (e : string) :
  Sdk.query db = inl e ->
  let w := View.detect (db, s) in
  View.subscriptions (snd w) = View.subscriptions s /\
  View.toasts (snd w)
  = View.toast_error "Failed to detect subscriptions" e :: View.toasts s /\
  View.isLoading (snd w) = false /\
  View.hiddenMerchants (snd w) = View.hiddenMerchants s /\
  fst w = db /\
  (View.subscriptions s = [] -> View.subscriptions (snd w) = []).
Proof.
  intros H. unfold View.detect. simpl. rewrite H. simpl. tauto.
Qed.

(** C6 as stated fails: after a run that found the GYM subscription, a
    run against unavailable storage still holds that record. *)
Lemma C6_counterexample :
  let s1 := snd (View.detect (Ledger.db_of Ledger.gym, View.initial)) in
  let db2 := Ledger.offline (Ledger.db_of Ledger.gym) in
  Sdk.query db2 = inl "database is locked"%string /\
  View.subscriptions (snd (View.detect (db2, s1))) <> [] /\
  View.subscriptions (snd (View.detect (db2, s1))) = View.subscriptions s1.
Proof.
  cbv zeta. split; [reflexivity|]. split; [|reflexivity].
  vm_compute. discriminate.
Qed.

End FailedQuery.

(* ================================================================== *)
(** ** The hidden set and the override table *)

Section Hidden.
Import Sdk View.

Lemma has_In h m : has h m = true <-> In (str m) h.
Proof.
  unfold has. split; [apply set_mem_correct1 | apply set_mem_correct2].
Qed.

Lemma str_inj x m : str x = str m <-> x = m.
Proof. split; congruence. Qed.

Lemma has_add h m x : has (Set_add m h) x = String.eqb x m || has h x.
Proof.
  apply eq_true_iff_eq. unfold Set_add.
  rewrite orb_true_iff, !has_In, set_add_iff, String.eqb_eq, str_inj. tauto.
Qed.

Lemma has_delete h m x :
  has (Set_delete m h) x = negb (String.eqb x m) && has h x.
Proof.
  apply eq_true_iff_eq.
  rewrite andb_true_iff, negb_true_iff, !has_In, String.eqb_neq.
  unfold Set_delete. split.
  - intros H. apply in_remove in H. rewrite str_inj in H. tauto.
  - intros [Hne Hin]. apply in_in_remove; [now rewrite str_inj|exact Hin].
Qed.

Lemma add_member h m : In (str m) h -> Set_add m h = h.
Proof.
  unfold Set_add. generalize (str m). intros k.
  induction h as [|x h IH]; cbn [set_add In]; [tauto|].
  destruct (Key_dec k x) as [->|Hne]; [reflexivity|].
  intros [->|Hin]; [congruence|]. now rewrite IH.
Qed.

(** The database reads the escaped literal back as the merchant itself. *)
Lemma read_escape m : read_literal (escape_quotes m) = Some m.
Proof.
  induction m as [|c m IH]; [reflexivity|]. simpl.
  destruct (Ascii.eqb_spec c "'") as [->|Hne]; simpl.
  - now rewrite IH.
  - apply Ascii.eqb_neq in Hne. now rewrite Hne, IH.
Qed.

Lemma hide_ok db s m :
  fault db = None ->
  hideSubscription m (db, s)
  = (set_table db (upsert m (now db) (sys_plugin_subscriptions db)),
     toast (toast_info "Hidden" (m ++ " won't appear in your subscriptions"))
           (with_hidden (Set_add m (hiddenMerchants s)) s)).
Proof. intros H. unfold hideSubscription, execute. now rewrite H, read_escape. Qed.

Lemma unhide_ok db s m :
  fault db = None ->
  unhideSubscription m (db, s)
  = (set_table db (delete m (sys_plugin_subscriptions db)),
     toast (toast_info "Restored" (m ++ " is visible again"))
           (with_hidden (Set_delete m (hiddenMerchants s)) s)).
Proof. intros H. unfold unhideSubscription, execute. now rewrite H, read_escape. Qed.

(** After a hide that went through, the table and the set in memory both
    list the merchant. *)
Lemma hide_store_and_set_agree db s m :
  fault db = None ->
  let w := hideSubscription m (db, s) in
  (exists l, query_hidden (fst w) = inr l /\ In [m] l) /\
  has (hiddenMerchants (snd w)) m = true.
Proof.
  intros H. cbv zeta. rewrite (hide_ok _ _ _ H). cbn [fst snd].
  unfold query_hidden. simpl. rewrite H. split.
  - eexists. split; [reflexivity|].
    induction (sys_plugin_subscriptions db) as [|r rows IH]; simpl; [now left|].
    destruct (is_merchant m r); simpl; [now left|].
    destruct (hidden_at r); simpl; auto.
  - simpl. rewrite has_add, String.eqb_refl. reflexivity.
Qed.

(** The records of a run depend on the ledger and the hidden set only. *)
Lemma detect_subscriptions db s :
  fault db = None ->
  subscriptions (snd (detect (db, s)))
  = map (toSubscription (hiddenMerchants s))
        (Sql.subscription_query (transactions db)).
Proof. apply detect_ok. Qed.

Lemma detect_hidden db s :
  hiddenMerchants (snd (detect (db, s))) = hiddenMerchants s.
Proof. unfold detect. simpl. now destruct (query db). Qed.

Lemma toSubscription_flag h h' m b row :
  (forall x, has h' x = if String.eqb x m then b else has h x) ->
  toSubscription h' row = Spec.flagged m b (toSubscription h row).
Proof.
  intros H. unfold Spec.flagged, toSubscription. simpl. rewrite H.
  now destruct (String.eqb (Sql.merchant row) m).
Qed.

Lemma flagged_same m b r :
  (View.merchant r = m -> is_hidden r = b) -> Spec.flagged m b r = r.
Proof.
  unfold Spec.flagged. destruct (String.eqb_spec (View.merchant r) m) as [E|E].
  - intros H. rewrite <- (H E). now destruct r.
  - reflexivity.
Qed.

Lemma entries_absent m rows :
  ~ In m (map h_merchant rows) -> entries m rows = 0%nat.
Proof.
  unfold entries. induction rows as [|r rows IH]; simpl; [reflexivity|].
  intros H. unfold is_merchant at 1.
  destruct (String.eqb_spec (h_merchant r) m) as [E|E]; [tauto|].
  apply IH. tauto.
Qed.

(** With the primary key respected, an upsert leaves one row for its key. *)
Lemma upsert_entries m t rows :
  NoDup (map h_merchant rows) -> entries m (upsert m t rows) = 1%nat.
Proof.
  induction rows as [|r rows IH]; simpl; intros Hnd.
  - unfold entries. simpl. unfold is_merchant. simpl.
    now rewrite String.eqb_refl.
  - inversion Hnd as [|k ks Hk Hnd']; subst.
    destruct (is_merchant m r) eqn:E.
    + unfold entries. simpl. unfold is_merchant at 1. simpl.
      rewrite String.eqb_refl. simpl. f_equal.
      apply entries_absent. unfold is_merchant in E.
      apply String.eqb_eq in E. congruence.
    + unfold entries. simpl. rewrite E. now apply IH.
Qed.

Lemma upsert_keys_present m t rows :
  In m (map h_merchant rows) ->
  map h_merchant (upsert m t rows) = map h_merchant rows.
Proof.
  induction rows as [|r rows IH]; simpl; [tauto|].
  destruct (is_merchant m r) eqn:E; simpl.
  - intros _. unfold is_merchant in E. apply String.eqb_eq in E. now rewrite E.
  - intros [H|H]; [|now rewrite IH].
    unfold is_merchant in E. rewrite H, String.eqb_refl in E. discriminate.
Qed.

Lemma upsert_In_key m t rows : In m (map h_merchant (upsert m t rows)).
Proof.
  induction rows as [|r rows IH]; simpl; [now left|].
  destruct (is_merchant m r); simpl; auto.
Qed.

Lemma upsert_NoDup m t rows :
  NoDup (map h_merchant rows) -> NoDup (map h_merchant (upsert m t rows)).
Proof.
  induction rows as [|r rows IH]; simpl; intros Hnd.
  - repeat constructor. tauto.
  - inversion Hnd as [|k ks Hk Hnd']; subst.
    destruct (is_merchant m r) eqn:E; simpl.
    + unfold is_merchant in E. apply String.eqb_eq in E. now rewrite <- E.
    + constructor; [|now apply IH].
      intros Hin. apply Hk. clear - Hin E.
      induction rows as [|r' rows IH]; simpl in *.
      * destruct Hin as [H|[]]. unfold is_merchant in E.
        rewrite <- H, String.eqb_refl in E. discriminate.
      * destruct (is_merchant m r'); simpl in *; [|tauto].
        destruct Hin as [H|H]; [|tauto].
        unfold is_merchant in E. rewrite <- H, String.eqb_refl in E. discriminate.
Qed.

(** A later upsert of the same key overrides the earlier one. *)
Lemma upsert_upsert m t1 t2 rows :
  upsert m t2 (upsert m t1 rows) = upsert m t2 rows.
Proof.
  induction rows as [|r rows IH]; simpl.
  - unfold is_merchant. simpl. now rewrite String.eqb_refl.
  - destruct (is_merchant m r) eqn:E; simpl.
    + unfold is_merchant. simpl. now rewrite String.eqb_refl.
    + now rewrite E, IH.
Qed.

Lemma upsert_hidden_at m t rows r :
  NoDup (map h_merchant rows) ->
  In r (upsert m t rows) -> h_merchant r = m -> hidden_at r = Some t.
Proof.
  induction rows as [|r' rows IH]; simpl; intros Hnd.
  - intros [<-|[]] _. reflexivity.
  - inversion Hnd as [|k ks Hk Hnd']; subst.
    destruct (is_merchant m r') eqn:E; simpl.
    + intros [<-|Hin] Hm; [reflexivity|].
      exfalso. apply Hk. unfold is_merchant in E. apply String.eqb_eq in E.
      rewrite E, <- Hm. now apply in_map.
    + intros [<-|Hin] Hm; [|now apply IH].
      unfold is_merchant in E. rewrite Hm, String.eqb_refl in E. discriminate.
Qed.

Lemma delete_absent m rows :
  ~ In m (map h_merchant rows) -> delete m rows = rows.
Proof.
  unfold delete. induction rows as [|r rows IH]; simpl; [reflexivity|].
  intros H. unfold is_merchant at 1.
  destruct (String.eqb_spec (h_merchant r) m) as [E|E]; [tauto|].
  simpl. f_equal. apply IH. tauto.
Qed.

Lemma delete_entries m rows : entries m (delete m rows) = 0%nat.
Proof.
  unfold entries, delete. induction rows as [|r rows IH]; simpl; [reflexivity|].
  destruct (is_merchant m r) eqn:E; simpl; [exact IH|]. now rewrite E.
Qed.

Lemma delete_delete m rows : delete m (delete m rows) = delete m rows.
Proof.
  unfold delete. induction rows as [|r rows IH]; simpl; [reflexivity|].
  destruct (is_merchant m r) eqn:E; simpl; [exact IH|]. rewrite E. simpl.
  now rewrite IH.
Qed.

Lemma set_table_same db : set_table db (sys_plugin_subscriptions db) = db.
Proof. now destruct db. Qed.

End Hidden.

(* ================================================================== *)
(** ** Hiding and restoring *)

Section HideUnhide.
Import Sdk View.

Lemma detect_facts db s :
  fault db = None ->
  fst (detect (db, s)) = db /\
  hiddenMerchants (snd (detect (db, s))) = hiddenMerchants s /\
  subscriptions (snd (detect (db, s)))
  = map (toSubscription (hiddenMerchants s))
        (Sql.subscription_query (transactions db)).
Proof.
  intros H. repeat split; [apply detect_hidden | now apply detect_subscriptions].
Qed.

Lemma hide_facts db s m :
  fault db = None ->
  let w := hideSubscription m (db, s) in
  transactions (fst w) = transactions db /\ fault (fst w) = None /\
  hiddenMerchants (snd w) = Set_add m (hiddenMerchants s) /\
  subscriptions (snd w) = subscriptions s.
Proof. intros H. cbv zeta. rewrite (hide_ok _ _ _ H). simpl. tauto. Qed.

Lemma unhide_facts db s m :
  fault db = None ->
  let w := unhideSubscription m (db, s) in
  transactions (fst w) = transactions db /\ fault (fst w) = None /\
  hiddenMerchants (snd w) = Set_delete m (hiddenMerchants s) /\
  subscriptions (snd w) = subscriptions s.
Proof. intros H. cbv zeta. rewrite (unhide_ok _ _ _ H). simpl. tauto. Qed.

Lemma run_subscriptions rows s :
  subscriptions (detectSubscriptions (inr rows) s)
  = map (toSubscription (hiddenMerchants s)) rows.
Proof. reflexivity. Qed.

Lemma run_hidden q s :
  hiddenMerchants (detectSubscriptions q s) = hiddenMerchants s.
Proof. now destruct q. Qed.

Lemma run_showHidden q s :
  showHidden (detectSubscriptions q s) = showHidden s.
Proof. now destruct q. Qed.

Lemma flag_after_hide h m row :
  toSubscription (Set_add m h) row = Spec.flagged m true (toSubscription h row).
Proof.
  apply toSubscription_flag. intros x. rewrite has_add.
  now destruct (String.eqb x m).
Qed.

Lemma flag_after_restore h m row :
  toSubscription (Set_delete m (Set_add m h)) row
  = Spec.flagged m false (toSubscription h row).
Proof.
  apply toSubscription_flag. intros x. rewrite has_delete, has_add.
  now destruct (String.eqb x m).
Qed.

(** C7.  Hiding a merchant removes no record.  The hide leaves the list
    in memory and the ledger as they are.  Whatever rows the query
    answers, a run after the hide turns them into the records a run
    before the hide makes of them, in the same order, with [is_hidden]
    true on the records of that merchant and every other field and
    record unchanged.  After the merchant is restored a run makes them
    with [is_hidden] false: the very records of before the hide when the
    merchant was not hidden then, and its records are back among the
    visible ones.  A merchant with a record in a run before the hide has
    a record, flagged hidden, in the run after it, and a record, not
    flagged and visible, in the run after the restore. *)
Theorem C7_hide_only_flags
  (db : Database) (s : State) (m : string) (rows : list Sql.Row) :
  fault db = None ->
  let before := subscriptions (detectSubscriptions (inr rows) s) in
  let w2 := hideSubscription m (db, s) in
  let s3 := detectSubscriptions (inr rows) (snd w2) in
  let w4 := unhideSubscription m (fst w2, s3) in
  let s5 := detectSubscriptions (inr rows) (snd w4) in
  (subscriptions (snd w2) = subscriptions s /\
   transactions (fst w2) = transactions db /\
   transactions (fst w4) = transactions db) /\
  subscriptions s3 = map (Spec.flagged m true) before /\
  subscriptions s5 = map (Spec.flagged m false) before /\
  (~ In (str m) (hiddenMerchants s) -> subscriptions s5 = before) /\
  (forall r, In r (subscriptions s5) -> merchant r = m ->
             is_hidden r = false /\ In r (visibleSubscriptions s5)) /\
  ((exists r, In r (Spec.detected db s) /\ merchant r = m) ->
   (exists r, In r (subscriptions (snd (detect w2))) /\
              merchant r = m /\ is_hidden r = true) /\
   (exists r, In r (subscriptions (snd (detect w4))) /\
              merchant r = m /\ is_hidden r = false /\
              In r (visibleSubscriptions (snd (detect w4))))).
Proof.
  intros Hok. cbv zeta.
  rewrite (hide_ok _ _ _ Hok). cbn [fst snd].
  assert (Hok2 : fault (set_table db (upsert m (now db) (sys_plugin_subscriptions db)))
                 = None) by exact Hok.
  rewrite (unhide_ok _ _ _ Hok2). cbn [fst snd].
  set (h := hiddenMerchants s).
  assert (S5 : forall l s',
             hiddenMerchants s' = Set_delete m (Set_add m h) ->
             subscriptions (detectSubscriptions (inr l) s')
             = map (Spec.flagged m false) (map (toSubscription h) l)).
  { intros l s' E. rewrite run_subscriptions, E, map_map.
    apply map_ext, flag_after_restore. }
  assert (V5 : forall l s' r,
             hiddenMerchants s' = Set_delete m (Set_add m h) ->
             In r (subscriptions (detectSubscriptions (inr l) s')) ->
             merchant r = m ->
             is_hidden r = false /\
             In r (visibleSubscriptions (detectSubscriptions (inr l) s'))).
  { intros l s' r E Hr Hm. assert (Hf : is_hidden r = false).
    { rewrite run_subscriptions, E in Hr.
      apply in_map_iff in Hr as (row & <- & _).
      simpl in *. now rewrite has_delete, Hm, String.eqb_refl. }
    split; [exact Hf|].
    unfold visibleSubscriptions. apply filter_In. split; [exact Hr|].
    rewrite run_hidden, E, has_delete, Hm, String.eqb_refl. simpl.
    apply orb_true_r. }
  split; [repeat split|]. split; [|split; [|split; [|split]]].
  - rewrite !run_subscriptions. simpl hiddenMerchants. rewrite map_map.
    apply map_ext, flag_after_hide.
  - apply S5. reflexivity.
  - intros Hnot. rewrite S5 by reflexivity. rewrite run_subscriptions. fold h.
    rewrite <- (map_id (map (toSubscription h) rows)) at 2.
    apply map_ext_in. intros r Hr.
    apply in_map_iff in Hr as (row & <- & _). apply flagged_same. simpl. intros Hm.
    apply not_true_is_false. rewrite has_In, Hm. exact Hnot.
  - intros r. apply V5. reflexivity.
  - intros (r & Hr & Hm). apply (detected_row _ _ _ Hok) in Hr as (row & Hrow & ->).
    simpl in Hm. fold h. split.
    + exists (toSubscription (Set_add m h) row). split; [|split].
      * unfold detect, query. cbn [fst snd]. rewrite Hok2.
        rewrite run_subscriptions. apply in_map. exact Hrow.
      * exact Hm.
      * simpl. now rewrite has_add, Hm, String.eqb_refl.
    + assert (Hin : In (toSubscription (Set_delete m (Set_add m h)) row)
                       (subscriptions (snd (detect
                          (set_table
                             (set_table db (upsert m (now db) (sys_plugin_subscriptions db)))
                             (delete m (sys_plugin_subscriptions
                                (set_table db (upsert m (now db) (sys_plugin_subscriptions db))))),
                           toast (toast_info "Restored" (m ++ " is visible again"))
                             (with_hidden (Set_delete m (Set_add m h))
                                (detectSubscriptions (inr rows)
                                   (toast (toast_info "Hidden"
                                             (m ++ " won't appear in your subscriptions"))
                                          (with_hidden (Set_add m h) s))))))))).
      { unfold detect, query. cbn [fst snd].
        change (fault (set_table _ _)) with (fault db). rewrite Hok.
        rewrite run_subscriptions. apply in_map. exact Hrow. }
      eexists. split; [exact Hin|]. split; [exact Hm|].
      unfold detect, query in *. cbn [fst snd] in *.
      change (fault (set_table _ _)) with (fault db) in *. rewrite Hok in *.
      apply V5; [reflexivity|exact Hin|exact Hm].
Qed.

(** C8.  With the primary key respected and the storage available, a hide
    leaves exactly one entry for the merchant, and so does a second hide:
    it adds no row, only sets [hidden_at] to the time of the later call,
    and leaves the hidden set as the first hide made it.  Restoring a
    merchant that has no entry raises no error and leaves the table, the
    database and the hidden set as they were; restoring twice is the same
    as restoring once. *)
Theorem C8_hide_unhide_idempotent
  (db : Database) (s : State) (m : string) (later : Z) :
  fault db = None ->
  NoDup (map h_merchant (sys_plugin_subscriptions db)) ->
  let w1 := hideSubscription m (db, s) in
  let w2 := hideSubscription m (at_time later (fst w1), snd w1) in
  let u1 := unhideSubscription m (db, s) in
  let u2 := unhideSubscription m u1 in
  (entries m (sys_plugin_subscriptions (fst w1)) = 1%nat /\
   entries m (sys_plugin_subscriptions (fst w2)) = 1%nat /\
   map h_merchant (sys_plugin_subscriptions (fst w2))
   = map h_merchant (sys_plugin_subscriptions (fst w1)) /\
   (forall r, In r (sys_plugin_subscriptions (fst w2)) -> h_merchant r = m ->
              hidden_at r = Some later) /\
   hiddenMerchants (snd w2) = hiddenMerchants (snd w1)) /\
  (~ In m (map h_merchant (sys_plugin_subscriptions db)) ->
   fst u1 = db /\
   toasts (snd u1)
   = toast_info "Restored" (m ++ " is visible again") :: toasts s /\
   (~ In (str m) (hiddenMerchants s) ->
    hiddenMerchants (snd u1) = hiddenMerchants s)) /\
  (sys_plugin_subscriptions (fst u2) = sys_plugin_subscriptions (fst u1) /\
   hiddenMerchants (snd u2) = hiddenMerchants (snd u1)).
Proof.
  intros Hok Hpk. cbv zeta.
  rewrite (hide_ok _ _ _ Hok), (unhide_ok _ _ _ Hok). cbn [fst snd].
  rewrite hide_ok, unhide_ok by exact Hok. cbn [fst snd].
  simpl.
  set (t1 := upsert m (now db) (sys_plugin_subscriptions db)).
  assert (Hpk1 : NoDup (map h_merchant t1)) by now apply upsert_NoDup.
  split; [|split].
  - repeat split.
    + now apply upsert_entries.
    + now apply upsert_entries.
    + apply upsert_keys_present, upsert_In_key.
    + intros r. now apply upsert_hidden_at.
    + apply add_member. apply set_add_iff. now left.
  - intros Habs. rewrite (delete_absent _ _ Habs), set_table_same.
    repeat split. intros Hnot. now apply notin_remove.
  - split; [apply delete_delete|].
    unfold Set_delete. apply notin_remove. apply remove_In.
Qed.

(** C9.  When the write of a hide or of a restore throws, the hidden set
    in memory is what it was before the call, the database is untouched,
    and the call returns after showing an error toast that carries the
    message. *)
Theorem C9_failed_write_keeps_hidden_set
  (db : Database) (s : State) (m e1 e2 : string) :
  execute db (InsertOnConflictUpdate (escape_quotes m)) = inl e1 ->
  execute db (DeleteWhere (escape_quotes m)) = inl e2 ->
  let wh := hideSubscription m (db, s) in
  let wu := unhideSubscription m (db, s) in
  (hiddenMerchants (snd wh) = hiddenMerchants s /\
   subscriptions (snd wh) = subscriptions s /\
   toasts (snd wh) = toast_error "Failed to hide" e1 :: toasts s /\
   fst wh = db) /\
  (hiddenMerchants (snd wu) = hiddenMerchants s /\
   subscriptions (snd wu) = subscriptions s /\
   toasts (snd wu) = toast_error "Failed to restore" e2 :: toasts s /\
   fst wu = db).
Proof.
  intros Hh Hu. unfold hideSubscription, unhideSubscription.
  rewrite Hh, Hu. simpl. tauto.
Qed.

End HideUnhide.

(* ================================================================== *)
(** ** Merchant keys *)

Section MerchantKeys.
Import Sql.

(** The key of a charge is its description, character for character:
    a cluster holds exactly the debits that carry the key as description. *)
Lemma cluster_exact_description txs key c :
  In c (Spec.cluster txs key) <->
  exists t, In t txs /\ description t = Some key /\ key <> EmptyString /\
            (amount t < 0)%Q /\ c = mkCharge key (amount t) (transaction_date t).
Proof.
  unfold Spec.cluster, partition.
  rewrite sort_by_In, filter_In, charges_In, String.eqb_eq. split.
  - intros [(t & Hin & Ht) <-]. exists t.
    destruct (where_charge_spec _ _ Ht) as (Hd & Hne & Ha & Eamt & Edate).
    repeat split; try assumption.
    destruct c; simpl in *. congruence.
  - intros (t & Hin & Hd & Hne & Ha & ->). split; [|reflexivity].
    exists t. split; [exact Hin|]. unfold where_charge. rewrite Hd.
    apply Qlt_bool_iff in Ha. rewrite Ha.
    apply String.eqb_neq in Hne. now rewrite Hne.
Qed.

(** Charges under different descriptions never share a cluster. *)
Lemma different_descriptions_never_merge txs k1 k2 c :
  In c (Spec.cluster txs k1) -> In c (Spec.cluster txs k2) -> k1 = k2.
Proof.
  intros H1 H2.
  apply partition_merchant in H1. apply partition_merchant in H2. congruence.
Qed.

(** C1, on the code.  The query partitions and groups on the description
    text itself.  On the ledger [Ledger.spotify] the charges described
    "SPOTIFY USA" and those described "SPOTIFY USA 2" receive two
    different merchant keys and form two clusters of two charges each, so
    the run detects nothing, where one merged cluster would hold four
    charges thirty days apart. *)
Theorem C1_near_duplicates_get_separate_keys :
  map mt_merchant (merchant_transactions Ledger.spotify)
  = ["SPOTIFY USA"; "SPOTIFY USA"; "SPOTIFY USA 2"; "SPOTIFY USA 2"]%string /\
  map c_date (Spec.cluster Ledger.spotify "SPOTIFY USA") = [0; 30] /\
  map c_date (Spec.cluster Ledger.spotify "SPOTIFY USA 2") = [60; 90] /\
  Spec.detected (Ledger.db_of Ledger.spotify) View.initial = [].
Proof. repeat split. Qed.

End MerchantKeys.

(* ================================================================== *)
(** ** The theorems at work on the sample ledgers *)

Section Instances.
Import Num Ledger.



Lemma C4_witness :
  Sdk.fault (db_of two_plans) = None /\
  exists rows,
    Spec.detected (db_of two_plans) View.initial
    = map (View.toSubscription []) rows /\
    StronglySorted (fun a b => (Sql.order_key b <= Sql.order_key a)%Q) rows.
Proof.
  split; [reflexivity|].
  destruct (C4_ordered_by_query_expression (db_of two_plans) View.initial eq_refl)
    as (rows & E & Hs & _).
  exists rows. auto.
Defined.

Lemma C5_witness :
  Sdk.fault (db_of gym) = None /\
  In gym_record (Spec.detected (db_of gym) View.initial) /\
  (17 <= 31 <= 35 -> View.frequency gym_record = "monthly"%string).
Proof.
  assert (Hin : In gym_record (Spec.detected (db_of gym) View.initial))
    by (vm_compute; left; reflexivity).
  split; [reflexivity|]. split; [exact Hin|].
  destruct (C5_frequency_label (db_of gym) View.initial gym_record
              eq_refl Hin) as (_ & _ & _ & H & _).
  exact H.
Defined.

Lemma C6_witness :
  Sdk.query (offline (db_of gym)) = inl "database is locked"%string /\
  View.subscriptions (snd (View.detect (offline (db_of gym), View.initial)))
  = [] /\
  View.toasts (snd (View.detect (offline (db_of gym), View.initial)))
  = [View.toast_error "Failed to detect subscriptions" "database is locked"].
Proof.
  split; [reflexivity|].
  destruct (C6_failed_query_keeps_list (offline (db_of gym)) View.initial
              "database is locked" eq_refl) as (Hs & Ht & _).
  split; [exact Hs | exact Ht].
Defined.

Lemma C7_witness :
  Sdk.fault (db_of gym) = None /\
  View.subscriptions
    (View.detectSubscriptions (inr (Sql.subscription_query gym))
       (snd (View.hideSubscription "GYM" (db_of gym, View.initial))))
  = map (Spec.flagged "GYM" true)
        (View.subscriptions
           (View.detectSubscriptions (inr (Sql.subscription_query gym))
                                     View.initial)).
Proof.
  split; [reflexivity|].
  destruct (C7_hide_only_flags (db_of gym) View.initial "GYM"
              (Sql.subscription_query gym) eq_refl)
    as (_ & H & _).
  exact H.
Defined.

Lemma C8_witness :
  Sdk.fault (db_of gym) = None /\
  NoDup (map Sdk.h_merchant (Sdk.sys_plugin_subscriptions (db_of gym))) /\
  Sdk.entries "GYM"
    (Sdk.sys_plugin_subscriptions
       (fst (View.hideSubscription "GYM"
               (Sdk.at_time 7
                  (fst (View.hideSubscription "GYM" (db_of gym, View.initial))),
                snd (View.hideSubscription "GYM" (db_of gym, View.initial))))))
  = 1%nat.
Proof.
  split; [reflexivity|]. split; [constructor|].
  destruct (C8_hide_unhide_idempotent (db_of gym) View.initial "GYM" 7
              eq_refl (NoDup_nil _)) as ((_ & H & _) & _).
  exact H.
Defined.

Lemma C9_witness :
  Sdk.execute (offline (db_of gym))
    (Sdk.InsertOnConflictUpdate (View.escape_quotes "GYM"))
  = inl "database is locked"%string /\
  Sdk.execute (offline (db_of gym)) (Sdk.DeleteWhere (View.escape_quotes "GYM"))
  = inl "database is locked"%string /\
  View.hiddenMerchants
    (snd (View.hideSubscription "GYM" (offline (db_of gym), View.initial)))
  = View.hiddenMerchants View.initial.
Proof.
  split; [reflexivity|]. split; [reflexivity|].
  destruct (C9_failed_write_keeps_hidden_set (offline (db_of gym)) View.initial
              "GYM" "database is locked" "database is locked" eq_refl eq_refl)
    as ((H & _) & _).
  exact H.
Defined.

Lemma C10_witness :
  Sdk.fault (db_of gym) = None /\
  In gym_record (Spec.detected (db_of gym) View.initial) /\
  5 <= View.interval_days gym_record <= 400 /\
  3 <= View.occurrence_count gym_record.
Proof.
  assert (Hin : In gym_record (Spec.detected (db_of gym) View.initial))
    by (vm_compute; left; reflexivity).
  split; [reflexivity|]. split; [exact Hin|].
  destruct (C10_record_ranges (db_of gym) View.initial gym_record
              eq_refl Hin) as (H & _ & H' & _).
  split; [exact H | exact H'].
Defined.

End Instances.

(* ================================================================== *)
(** ** More on what a detection run returns *)

Section DetectionExtras.
Import Num Sql.

Lemma charges_app a b : charges (a ++ b) = charges a ++ charges b.
Proof.
  induction a as [|t a IH]; simpl; [reflexivity|].
  destruct (where_charge t); simpl; now rewrite IH.
Qed.

Lemma detected_In db s r :
  Sdk.fault db = None ->
  In r (Spec.detected db s) <->
  exists row, In row (subscription_query (Sdk.transactions db)) /\
              r = View.toSubscription (View.hiddenMerchants s) row.
Proof.
  intros H. rewrite (detect_ok _ _ H), in_map_iff. split.
  - intros (row & <- & Hrow). eauto.
  - intros (row & Hrow & ->). eauto.
Qed.

Lemma merchant_stats_merchants rows :
  map merchant (merchant_stats rows)
  = filter (fun m => having (group rows m)) (distinct (map mi_merchant rows)).
Proof.
  unfold merchant_stats. rewrite map_map. simpl. apply map_id.
Qed.

Lemma subscription_query_NoDup txs :
  NoDup (map merchant (subscription_query txs)).
Proof.
  unfold subscription_query.
  eapply Permutation_NoDup.
  - apply Permutation_map, sort_by_perm.
  - rewrite merchant_stats_merchants. apply NoDup_filter, distinct_NoDup.
Qed.

Lemma detected_merchants_NoDup db s :
  Sdk.fault db = None ->
  NoDup (map View.merchant (Spec.detected db s)).
Proof.
  intros H. rewrite (detect_ok _ _ H), map_map. simpl.
  apply subscription_query_NoDup.
Qed.

(** GROUP BY at work: a run never lists a merchant twice. *)
Theorem one_record_per_merchant (db : Sdk.Database) (s : View.State) :
  Sdk.fault db = None ->
  NoDup (map View.merchant (Spec.detected db s)).
Proof.
  intros H. rewrite (detect_ok _ _ H), map_map. simpl.
  apply subscription_query_NoDup.
Qed.

Lemma cluster_size txs m :
  m <> EmptyString ->
  length (Spec.cluster txs m) = length (filter (Page.is_debit_of m) txs).
Proof.
  intros Hm. unfold Spec.cluster, partition. rewrite sort_by_length.
  induction txs as [|t txs IH]; simpl; [reflexivity|].
  unfold where_charge, Page.is_debit_of at 1.
  destruct (description t) as [d|]; [|exact IH].
  destruct (String.eqb_spec d m) as [->|Hne]; simpl.
  - apply String.eqb_neq in Hm. rewrite Hm. simpl. rewrite andb_true_r.
    destruct (Qlt_bool (amount t) 0); simpl; [|exact IH].
    rewrite String.eqb_refl. simpl. now rewrite IH.
  - destruct (Qlt_bool (amount t) 0 && negb (d =? ""))%string; simpl; [|exact IH].
    apply String.eqb_neq in Hne. now rewrite Hne.
Qed.

Lemma cluster_merchant_nonempty txs m :
  Spec.cluster txs m <> [] -> m <> EmptyString.
Proof.
  destruct (Spec.cluster txs m) as [|c l] eqn:E; [congruence|]. intros _.
  assert (Hc : In c (Spec.cluster txs m)) by (rewrite E; now left).
  apply cluster_exact_description in Hc as (t & _ & _ & Hne & _). exact Hne.
Qed.

(** COUNT( * ) + 1 counts the charges: the occurrence count of a record is
    the number of debits of the ledger that carry exactly its merchant as
    description, and that description is not empty. *)
Theorem occurrence_count_counts_debits
  (db : Sdk.Database) (s : View.State) (r : View.Subscription) :
  Sdk.fault db = None ->
  In r (Spec.detected db s) ->
  View.merchant r <> EmptyString /\
  View.occurrence_count r
  = Z.of_nat (length (filter (Page.is_debit_of (View.merchant r))
                             (Sdk.transactions db))).
Proof.
  intros Hok Hr. destruct (detected_row _ _ _ Hok Hr) as (row & Hrow & ->).
  simpl. destruct (row_cluster_size _ _ Hrow) as [Hc H3].
  assert (Hne : merchant row <> EmptyString).
  { apply (cluster_merchant_nonempty (Sdk.transactions db)).
    intros E. rewrite E in H3. simpl in H3. lia. }
  split; [exact Hne|]. now rewrite Hc, cluster_size.
Qed.

(** The WHERE clause at work: a transaction with a NULL or empty
    description, or with an amount that is not negative, changes nothing
    in the result of the query, wherever it stands in the ledger. *)
Theorem non_charges_are_ignored
  (before after : list Transaction) (t : Transaction) :
  description t = None \/ description t = Some EmptyString \/ (0 <= amount t)%Q ->
  subscription_query (before ++ t :: after) = subscription_query (before ++ after).
Proof.
  intros H.
  assert (E : where_charge t = None).
  { unfold where_charge. destruct (description t) as [d|]; [|reflexivity].
    destruct H as [H|[H|H]]; [discriminate| |].
    - injection H as ->. now rewrite andb_false_r.
    - assert (Hf : Qlt_bool (amount t) 0 = false).
      { apply not_true_is_false. rewrite Qlt_bool_iff. now apply Qle_not_lt. }
      now rewrite Hf. }
  unfold subscription_query, merchant_transactions.
  rewrite !charges_app. simpl. now rewrite E.
Qed.


Lemma having_dates txs txs' m :
  map c_date (Spec.cluster txs m) = map c_date (Spec.cluster txs' m) ->
  having (group (merchant_intervals (merchant_transactions txs)) m)
  = having (group (merchant_intervals (merchant_transactions txs')) m).
Proof.
  intros E. unfold having.
  rewrite !COUNT_group, !intervals_group. unfold Spec.cluster_gaps.
  now rewrite E.
Qed.

(** The HAVING clause looks at dates only: two ledgers in which a merchant
    is charged on the same dates, whatever the amounts, agree on whether
    the merchant is detected, and on the interval, the frequency label and
    the occurrence count of its record. *)
Theorem acceptance_ignores_amounts
  (db db' : Sdk.Database) (s s' : View.State) (key : string) :
  Sdk.fault db = None -> Sdk.fault db' = None ->
  map c_date (Spec.cluster (Sdk.transactions db) key)
  = map c_date (Spec.cluster (Sdk.transactions db') key) ->
  ((exists r, In r (Spec.detected db s) /\ View.merchant r = key) <->
   (exists r', In r' (Spec.detected db' s') /\ View.merchant r' = key)) /\
  (forall r r',
     In r (Spec.detected db s) -> In r' (Spec.detected db' s') ->
     View.merchant r = key -> View.merchant r' = key ->
     View.interval_days r = View.interval_days r' /\
     View.frequency r = View.frequency r' /\
     View.occurrence_count r = View.occurrence_count r').
Proof.
  intros Hok Hok' E. split.
  - assert (Hx : forall d st, Sdk.fault d = None ->
        (exists r, In r (Spec.detected d st) /\ View.merchant r = key) <->
        having (group (merchant_intervals
                         (merchant_transactions (Sdk.transactions d))) key) = true).
    { intros d st Hd. rewrite <- subscription_query_merchant. split.
      - intros (r & Hr & <-). apply (detected_row _ _ _ Hd) in Hr as (row & Hrow & ->).
        now exists row.
      - intros (row & Hrow & <-).
        exists (View.toSubscription (View.hiddenMerchants st) row).
        split; [|reflexivity]. apply (detected_In _ _ _ Hd). eauto. }
    rewrite (Hx _ _ Hok), (Hx _ _ Hok'). now rewrite (having_dates _ _ _ E).
  - intros r r' Hr Hr' Hm Hm'.
    destruct (detected_row _ _ _ Hok Hr) as (row & Hrow & ->).
    destruct (detected_row _ _ _ Hok' Hr') as (row' & Hrow' & ->).
    simpl in *.
    rewrite (row_avg_interval _ _ Hrow), (row_avg_interval _ _ Hrow').
    rewrite (row_occurrence_count _ _ Hrow), (row_occurrence_count _ _ Hrow').
    rewrite Hm, Hm'. unfold Spec.cluster_gaps. rewrite E. auto.
Qed.

End DetectionExtras.

(* ================================================================== *)
(** ** Dates, amounts and rounding of a record *)

Section RecordExtras.
Import Num Sql.

(** The aggregates range over one row per gap, so the earliest charge of a
    merchant is left out.  With the charges of the merchant in date order,
    the amount of a record is [Math.round(avg * 100) / 100] for the double
    [avg] nearest to the mean of the absolute amounts of all charges but
    the earliest, and [first_charge] is the date of the second charge. *)
Theorem earliest_charge_is_left_out
  (db : Sdk.Database) (s : View.State) (r : View.Subscription) :
  Sdk.fault db = None ->
  In r (Spec.detected db s) ->
  exists t0 t1 later,
    Permutation (t0 :: t1 :: later)
                (Spec.charges_of (Sdk.transactions db) (View.merchant r)) /\
    StronglySorted Z.le (map transaction_date (t0 :: t1 :: later)) /\
    View.amount r
    = round2 (F64.to_double (AVG (map (fun t => Qabs (amount t)) (t1 :: later)))) /\
    View.first_charge r = transaction_date t1 /\
    transaction_date t0 <= View.first_charge r.
Proof.
  intros Hok Hr. destruct (detected_row _ _ _ Hok Hr) as (row & Hrow & ->).
  destruct (row_on_ledger _ _ Hrow) as (t0 & t1 & later & Hp & Hs & _ & Ea & Ef & _).
  exists t0, t1, later. simpl View.merchant. simpl View.amount.
  simpl View.first_charge. rewrite Ea, Ef.
  repeat split; try assumption.
  inversion Hs as [|? ? _ Hall]; subst. now inversion Hall.
Qed.

(** [last_charge] is the date of the latest charge of the cluster: some
    charge of the merchant has that date and none has a later one. *)
Theorem last_charge_is_latest
  (db : Sdk.Database) (s : View.State) (r : View.Subscription) :
  Sdk.fault db = None ->
  In r (Spec.detected db s) ->
  (exists c, In c (Spec.cluster (Sdk.transactions db) (View.merchant r)) /\
             c_date c = View.last_charge r) /\
  (forall c, In c (Spec.cluster (Sdk.transactions db) (View.merchant r)) ->
             c_date c <= View.last_charge r).
Proof.
  intros Hok Hr. destruct (detected_row _ _ _ Hok Hr) as (row & Hrow & ->).
  destruct (row_shape _ _ Hrow) as (c0 & c1 & later & Ec & _ & _ & El).
  simpl. rewrite Ec, El.
  destruct (MAX_spec (c_date c1) (map c_date later)) as [Hin Hle].
  change (c_date c1 :: map c_date later) with (map c_date (c1 :: later)) in *.
  split.
  - apply in_map_iff in Hin as (c & E & Hc). exists c. split; [now right|exact E].
  - rewrite Forall_forall in Hle. intros c [<-|Hc].
    + pose proof (cluster_sorted (Sdk.transactions db) (merchant row)) as Hs.
      rewrite Ec in Hs. inversion Hs as [|? ? _ Hall]; subst.
      inversion Hall as [|? ? H01 _]; subst.
      assert (Hc1 : In (c_date c1) (map c_date (c1 :: later))) by now left.
      specialize (Hle _ Hc1). lia.
    + apply Hle. now apply in_map.
Qed.

End RecordExtras.

(* ================================================================== *)
(** ** Rounding *)

Section RoundingExtras.
Import Num Sql.
Local Open Scope Q_scope.

Lemma Math_round_error x :
  inject_Z (Math_round x) - (1 # 2) <= x /\ x < inject_Z (Math_round x) + (1 # 2).
Proof.
  unfold Math_round.
  pose proof (Qfloor_le (x + (1 # 2))) as Hlo.
  pose proof (Qlt_floor (x + (1 # 2))) as Hhi.
  rewrite inject_Z_plus in Hhi. change (inject_Z 1) with 1 in Hhi.
  split; Lqa.lra.
Qed.

Lemma Qsum_nonneg l : Forall (fun x => 0 <= x) l -> 0 <= Qsum l.
Proof.
  induction 1 as [|x l Hx Hl IH]; simpl; [discriminate|]. Lqa.lra.
Qed.

Lemma AVG_abs_nonneg {A : Type} (f : A -> Q) l :
  0 <= AVG (map (fun c => Qabs (f c)) l).
Proof.
  unfold AVG, COUNT.
  assert (Hs : 0 <= Qsum (map (fun c => Qabs (f c)) l)).
  { apply Qsum_nonneg, Forall_forall. intros x Hx.
    apply in_map_iff in Hx as (c & <- & _). apply Qabs_nonneg. }
  destruct (length (map (fun c => Qabs (f c)) l)) as [|n] eqn:E.
  - simpl. unfold Qdiv. change (/ inject_Z 0) with 0. Lqa.lra.
  - apply Qle_shift_div_l.
    + change 0 with (inject_Z 0). rewrite <- Zlt_Qlt. lia.
    + now rewrite Qmult_0_l.
Qed.

Lemma round2_nonneg x : 0 <= x -> 0 <= round2 x.
Proof.
  intros H. unfold round2, F64.fdiv. apply to_double_nonneg.
  assert (Hp : 0 <= F64.fmul x 100).
  { apply to_double_nonneg. Lqa.lra. }
  assert (Hr : (0 <= Math_round (F64.fmul x 100))%Z).
  { rewrite <- (Math_round_Z 0). apply Math_round_le. exact Hp. }
  apply Qle_shift_div_l; [reflexivity|].
  rewrite Qmult_0_l. change 0 with (inject_Z 0). now rewrite <- Zle_Qle.
Qed.

Lemma to_double_close x :
  0 <= x ->
  x - x * (1 # 9007199254740992) <= F64.to_double x /\
  F64.to_double x <= x + x * (1 # 9007199254740992).
Proof.
  intros Hx. pose proof (to_double_error x) as H.
  rewrite (Qabs_pos x Hx) in H. apply Qabs_Qle_condition in H.
  unfold F64.unit_roundoff in H.
  change (1 # 2 ^ 53) with (1 # 9007199254740992) in H.
  split; Lqa.lra.
Qed.

Lemma round2_close x :
  0 <= x ->
  Qabs (round2 x - x) <= (1 # 200) + (x + 1) * (3 # 9007199254740992).
Proof.
  intros Hx. unfold round2, F64.fdiv, F64.fmul.
  assert (Hx100 : 0 <= x * 100) by Lqa.lra.
  destruct (to_double_close _ Hx100) as [P1 P2].
  pose proof (to_double_nonneg _ Hx100) as Hp.
  set (p := F64.to_double (x * 100)) in *.
  destruct (Math_round_error p) as [M1 M2].
  assert (Hr : (0 <= Math_round p)%Z).
  { rewrite <- (Math_round_Z 0). now apply Math_round_le. }
  rewrite Zle_Qle in Hr. change (inject_Z 0) with 0 in Hr.
  set (n := inject_Z (Math_round p)) in *.
  assert (Hn : 0 <= n / 100).
  { unfold Qdiv. change (/ 100) with (1 # 100). Lqa.lra. }
  destruct (to_double_close _ Hn) as [T1 T2].
  set (t := F64.to_double (n / 100)) in *.
  unfold Qdiv in T1, T2. change (/ 100) with (1 # 100) in T1, T2.
  apply Qabs_Qle_condition. split; Lqa.lra.
Qed.

(** Both roundings stay close and keep the sign.  Take the charges of the
    record's merchant in date order, with [mean] the mean of their gaps
    and [avg] the mean absolute amount of all charges but the earliest.
    Then [interval_days] is within half a day of [mean]; the amount is
    within half a cent of [avg], and the annual cost within half a cent of
    [avg * 365 / interval_days], each up to the rounding of the double
    operations, a relative [2 ^ -50]; and neither amount is negative. *)
Theorem rounding_stays_close
  (db : Sdk.Database) (s : View.State) (r : View.Subscription) :
  Sdk.fault db = None ->
  In r (Spec.detected db s) ->
  exists (t0 : Transaction) (later : list Transaction),
    Permutation (t0 :: later)
                (Spec.charges_of (Sdk.transactions db) (View.merchant r)) /\
    StronglySorted Z.le (map transaction_date (t0 :: later)) /\
    let mean := AVG (map inject_Z (Spec.gaps (map transaction_date (t0 :: later)))) in
    let avg := AVG (map (fun t => Qabs (amount t)) later) in
    let exact := avg * (365 / inject_Z (View.interval_days r)) in
    (mean - (1 # 2) < inject_Z (View.interval_days r) /\
     inject_Z (View.interval_days r) <= mean + (1 # 2)) /\
    Qabs (View.amount r - avg) <= (1 # 200) + (avg + 1) * (1 # 2 ^ 50) /\
    Qabs (View.annual_cost r - exact) <= (1 # 200) + (exact + 1) * (1 # 2 ^ 50) /\
    0 <= View.amount r /\ 0 <= View.annual_cost r.
Proof.
  intros Hok Hr. destruct (detected_row _ _ _ Hok Hr) as (row & Hrow & ->).
  destruct (row_on_ledger _ _ Hrow) as (t0 & t1 & later & Hp & Hs & Ed & Ea & _).
  exists t0, (t1 :: later). simpl View.merchant.
  split; [exact Hp|]. split; [exact Hs|].
  pose proof (row_avg_interval _ _ Hrow) as Ei.
  destruct (row_having _ _ Hrow) as [_ [Hlo _]]. rewrite <- Ei in Hlo.
  unfold Spec.cluster_gaps in Ei. rewrite Ed in Ei.
  cbv zeta. simpl View.interval_days. simpl View.amount. simpl View.annual_cost.
  rewrite <- Ea, <- Ei.
  assert (Hd : (5 <= Math_round (avg_interval row))%Z).
  { rewrite <- (Math_round_Z 5). now apply Math_round_le. }
  assert (Ha : 0 <= avg_amount row) by (rewrite Ea; apply AVG_abs_nonneg).
  destruct (Math_round_error (avg_interval row)) as [M1 M2].
  set (d := inject_Z (Math_round (avg_interval row))) in *.
  assert (Hd0 : 0 < d).
  { unfold d. change 0 with (inject_Z 0). rewrite <- Zlt_Qlt. lia. }
  assert (Hq0 : 0 <= 365 / d).
  { apply Qle_shift_div_l; [exact Hd0|]. rewrite Qmult_0_l. discriminate. }
  destruct (to_double_close _ Ha) as [A1 A2].
  pose proof (to_double_nonneg _ Ha) as A0.
  set (a := F64.to_double (avg_amount row)) in *.
  unfold F64.fmul at 1. unfold F64.fdiv at 1.
  destruct (to_double_close _ Hq0) as [Q1 Q2].
  pose proof (to_double_nonneg _ Hq0) as Q0.
  set (q := F64.to_double (365 / d)) in *.
  assert (Hprod : 0 <= a * q) by now apply Qmult_le_0_compat.
  destruct (to_double_close _ Hprod) as [C1 C2].
  pose proof (to_double_nonneg _ Hprod) as C0.
  set (c := F64.to_double (a * q)) in *.
  pose proof (round2_close a A0) as Ra. pose proof (round2_close c C0) as Rc.
  pose proof (round2_nonneg a A0) as Na. pose proof (round2_nonneg c C0) as Nc.
  apply Qabs_Qle_condition in Ra, Rc.
  set (u := 1 # 9007199254740992) in *.
  assert (Hup : a * q <= (avg_amount row + avg_amount row * u)
                         * (365 / d + 365 / d * u)).
  { apply Qmult_le_compat_nonneg; split; assumption. }
  assert (Hdn : (avg_amount row - avg_amount row * u) * (365 / d - 365 / d * u)
                <= a * q).
  { apply Qmult_le_compat_nonneg; (split; [|assumption]); unfold u.
    - generalize dependent (avg_amount row). intros; Lqa.lra.
    - generalize dependent (365 / d). intros; Lqa.lra. }
  assert (Eup : (avg_amount row + avg_amount row * u) * (365 / d + 365 / d * u)
                == avg_amount row * (365 / d) * ((1 + u) * (1 + u))) by ring.
  assert (Edn : (avg_amount row - avg_amount row * u) * (365 / d - 365 / d * u)
                == avg_amount row * (365 / d) * ((1 - u) * (1 - u))) by ring.
  rewrite Eup in Hup. rewrite Edn in Hdn.
  assert (He : 0 <= avg_amount row * (365 / d)) by now apply Qmult_le_0_compat.
  set (e := avg_amount row * (365 / d)) in *.
  set (pq := a * q) in *.
  change (1 # 2 ^ 50) with (1 # 1125899906842624).
  unfold u in *.
  split; [split; Lqa.lra|].
  split; [apply Qabs_Qle_condition; split; Lqa.lra|].
  split; [apply Qabs_Qle_condition; split; Lqa.lra|].
  split; assumption.
Qed.

End RoundingExtras.

(* ================================================================== *)
(** ** The hidden set, the table and the page *)

Section StoreExtras.
Import Sdk View.

Lemma hide_cases db s m :
  (exists e, fault db = Some e /\
     hideSubscription m (db, s) = (db, toast (toast_error "Failed to hide" e) s)) \/
  (fault db = None /\
   hideSubscription m (db, s)
   = (set_table db (upsert m (now db) (sys_plugin_subscriptions db)),
      toast (toast_info "Hidden" (m ++ " won't appear in your subscriptions"))
            (with_hidden (Set_add m (hiddenMerchants s)) s))).
Proof.
  destruct (fault db) as [e|] eqn:E.
  - left. exists e. split; [reflexivity|].
    unfold hideSubscription, execute. now rewrite E.
  - right. split; [reflexivity|]. now apply hide_ok.
Qed.

Lemma unhide_cases db s m :
  (exists e, fault db = Some e /\
     unhideSubscription m (db, s)
     = (db, toast (toast_error "Failed to restore" e) s)) \/
  (fault db = None /\
   unhideSubscription m (db, s)
   = (set_table db (delete m (sys_plugin_subscriptions db)),
      toast (toast_info "Restored" (m ++ " is visible again"))
            (with_hidden (Set_delete m (hiddenMerchants s)) s))).
Proof.
  destruct (fault db) as [e|] eqn:E.
  - left. exists e. split; [reflexivity|].
    unfold unhideSubscription, execute. now rewrite E.
  - right. split; [reflexivity|]. now apply unhide_ok.
Qed.

Lemma upsert_other m m' t rows :
  m' <> m ->
  filter (is_merchant m') (upsert m t rows) = filter (is_merchant m') rows.
Proof.
  intros Hne. induction rows as [|r rows IH]; simpl.
  - unfold is_merchant. simpl. apply not_eq_sym, String.eqb_neq in Hne.
    now rewrite Hne.
  - destruct (is_merchant m r) eqn:E; simpl.
    + unfold is_merchant in *. simpl. apply String.eqb_eq in E. rewrite E.
      apply not_eq_sym, String.eqb_neq in Hne. now rewrite Hne.
    + now rewrite IH.
Qed.

Lemma delete_other m m' rows :
  m' <> m ->
  filter (is_merchant m') (delete m rows) = filter (is_merchant m') rows.
Proof.
  intros Hne. unfold delete. induction rows as [|r rows IH]; simpl; [reflexivity|].
  destruct (is_merchant m r) eqn:E; simpl.
  - unfold is_merchant in *. apply String.eqb_eq in E. rewrite E.
    apply not_eq_sym, String.eqb_neq in Hne. now rewrite Hne.
  - now rewrite IH.
Qed.

(** Hiding or restoring one merchant leaves every other merchant as it
    was, whether the write goes through or not: the rows of the table
    under another key, the membership of another key in the set in
    memory, the ledger and the list of records are unchanged. *)
Theorem hide_unhide_leave_others_alone
  (db : Database) (s : State) (m m' : string) :
  m' <> m ->
  let wh := hideSubscription m (db, s) in
  let wu := unhideSubscription m (db, s) in
  (filter (is_merchant m') (sys_plugin_subscriptions (fst wh))
   = filter (is_merchant m') (sys_plugin_subscriptions db) /\
   has (hiddenMerchants (snd wh)) m' = has (hiddenMerchants s) m' /\
   transactions (fst wh) = transactions db /\
   subscriptions (snd wh) = subscriptions s) /\
  (filter (is_merchant m') (sys_plugin_subscriptions (fst wu))
   = filter (is_merchant m') (sys_plugin_subscriptions db) /\
   has (hiddenMerchants (snd wu)) m' = has (hiddenMerchants s) m' /\
   transactions (fst wu) = transactions db /\
   subscriptions (snd wu) = subscriptions s).
Proof.
  intros Hne. cbv zeta. split.
  - destruct (hide_cases db s m) as [(e & _ & ->)|[_ ->]]; simpl; [tauto|].
    rewrite (upsert_other _ _ _ _ Hne), has_add.
    apply String.eqb_neq in Hne. rewrite Hne. auto.
  - destruct (unhide_cases db s m) as [(e & _ & ->)|[_ ->]]; simpl; [tauto|].
    rewrite (delete_other _ _ _ Hne), has_delete.
    apply String.eqb_neq in Hne. rewrite Hne. auto.
Qed.

Lemma delete_upsert m t rows :
  ~ In m (map h_merchant rows) -> delete m (upsert m t rows) = rows.
Proof.
  unfold delete. induction rows as [|r rows IH]; simpl; intros H.
  - unfold is_merchant. simpl. now rewrite String.eqb_refl.
  - destruct (is_merchant m r) eqn:E.
    + exfalso. apply H. left. unfold is_merchant in E. now apply String.eqb_eq in E.
    + simpl. rewrite E. simpl. f_equal. apply IH. tauto.
Qed.

Lemma Set_delete_add m h :
  ~ In (str m) h -> Set_delete m (Set_add m h) = h.
Proof.
  unfold Set_delete, Set_add. generalize (str m). intros k.
  induction h as [|x h IH]; cbn [set_add remove]; intros H.
  - destruct (Key_dec k k); [reflexivity|congruence].
  - destruct (Key_dec k x) as [->|Hne]; [elim H; now left|]. cbn [remove].
    destruct (Key_dec k x); [congruence|]. f_equal. apply IH.
    intros Hin. apply H. now right.
Qed.

(** Hide, then restore: for a merchant that had no row and was not in the
    set, the two calls leave the database and the hidden set exactly as
    they were, and the list of records too. *)
Theorem hide_then_unhide_restores (db : Database) (s : State) (m : string) :
  fault db = None ->
  ~ In m (map h_merchant (sys_plugin_subscriptions db)) ->
  ~ In (str m) (hiddenMerchants s) ->
  let w := unhideSubscription m (hideSubscription m (db, s)) in
  fst w = db /\
  hiddenMerchants (snd w) = hiddenMerchants s /\
  subscriptions (snd w) = subscriptions s.
Proof.
  intros Hok Hrow Hset. cbv zeta.
  rewrite (hide_ok _ _ _ Hok), unhide_ok by exact Hok. simpl.
  rewrite (delete_upsert _ _ _ Hrow), (Set_delete_add _ _ Hset).
  repeat split. now destruct db.
Qed.

Lemma stored_upsert m t rows x :
  In x (map h_merchant
          (filter (fun r => match hidden_at r with Some _ => true | None => false end)
                  (upsert m t rows)))
  <-> x = m \/
      In x (map h_merchant
              (filter (fun r => match hidden_at r with Some _ => true | None => false end)
                      rows)).
Proof.
  induction rows as [|r rows IH]; simpl.
  - intuition congruence.
  - destruct (is_merchant m r) eqn:E; simpl.
    + unfold is_merchant in E. apply String.eqb_eq in E.
      destruct (hidden_at r); simpl; intuition congruence.
    + destruct (hidden_at r); simpl; rewrite IH; tauto.
Qed.

Lemma stored_delete m rows x :
  In x (map h_merchant
          (filter (fun r => match hidden_at r with Some _ => true | None => false end)
                  (delete m rows)))
  <-> x <> m /\
      In x (map h_merchant
              (filter (fun r => match hidden_at r with Some _ => true | None => false end)
                      rows)).
Proof.
  unfold delete. induction rows as [|r rows IH]; simpl; [tauto|].
  destruct (is_merchant m r) eqn:E; simpl.
  - unfold is_merchant in E. apply String.eqb_eq in E.
    destruct (hidden_at r); simpl; rewrite IH; intuition congruence.
  - unfold is_merchant in E. apply String.eqb_neq in E.
    destruct (hidden_at r); simpl; rewrite IH; intuition congruence.
Qed.

Lemma Set_of_undefined (rows : list (list string)) :
  Set_of (map property_merchant rows)
  = match rows with [] => [] | _ :: _ => [undefined] end.
Proof.
  unfold Set_of. destruct rows as [|r rows]; [reflexivity|].
  cbn [map fold_left set_add property_merchant].
  induction rows as [|r' rows IH]; [reflexivity|].
  cbn [map fold_left set_add property_merchant].
  destruct (Key_dec undefined undefined) as [_|Hne]; [exact IH|congruence].
Qed.

Lemma load_has db s :
  fault db = None ->
  forall m, has (hiddenMerchants (loadHiddenMerchants (query_hidden db) s)) m = false.
Proof.
  intros Hok m. unfold query_hidden. rewrite Hok.
  cbn [loadHiddenMerchants]. rewrite Set_of_undefined.
  now destruct (map _ _).
Qed.

(** [loadHiddenMerchants] reads no merchant.  The rows of the read are
    arrays, [r.merchant] is [undefined] on each of them, and the set
    becomes empty when the table lists no hidden merchant and the set
    that holds [undefined] alone when it lists any.  No merchant is in
    the set after the read, so the set agrees with the table only when
    the table lists nobody; the count beside "Show hidden" is 1 whenever
    it lists somebody. *)
Theorem load_reads_no_merchant (db : Database) (s : State) :
  fault db = None ->
  let s' := loadHiddenMerchants (query_hidden db) s in
  (forall m, has (hiddenMerchants s') m = false) /\
  (Page.stored_hidden db = [] -> hiddenMerchants s' = []) /\
  (Page.stored_hidden db <> [] ->
   hiddenMerchants s' = [undefined] /\ Page.hiddenCount s' = 1%nat) /\
  (Page.in_sync db s' <-> Page.stored_hidden db = []) /\
  subscriptions s' = subscriptions s.
Proof.
  intros Hok. cbv zeta. unfold query_hidden, Page.stored_hidden. rewrite Hok.
  cbn [loadHiddenMerchants]. rewrite Set_of_undefined.
  set (l := filter _ (sys_plugin_subscriptions db)).
  assert (Hhas : forall m,
             has (match map (fun r => [h_merchant r]) l with
                  | [] => []
                  | _ :: _ => [undefined]
                  end) m = false).
  { intros m. destruct l; reflexivity. }
  split; [exact Hhas|]. split; [|split; [|split; [|reflexivity]]].
  - intros E. apply map_eq_nil in E. now rewrite E.
  - intros Hne. destruct l as [|r l']; [now elim Hne|]. split; reflexivity.
  - unfold Page.in_sync, Page.stored_hidden. cbn [hiddenMerchants with_hidden].
    fold l. split.
    + intros Hs. destruct l as [|r l'] eqn:E; [reflexivity|].
      specialize (Hs (h_merchant r)). rewrite Hhas in Hs.
      destruct Hs as [_ Hs]. discriminate Hs. now left.
    + intros E m. rewrite Hhas, E. split; [discriminate|intros []].
Qed.

(** Once the set in memory agrees with the table, a hide, a restore and a
    detection run keep them in agreement, whether the database answers or
    throws. *)
Theorem actions_keep_set_in_sync (db : Database) (s : State) (m : string) :
  Page.in_sync db s ->
  Page.in_sync (fst (hideSubscription m (db, s))) (snd (hideSubscription m (db, s))) /\
  Page.in_sync (fst (unhideSubscription m (db, s))) (snd (unhideSubscription m (db, s))) /\
  Page.in_sync (fst (detect (db, s))) (snd (detect (db, s))).
Proof.
  intros Hs. split; [|split].
  - destruct (hide_cases db s m) as [(e & _ & ->)|[_ ->]]; simpl; [exact Hs|].
    intros x. simpl. rewrite has_add, orb_true_iff, String.eqb_eq, (Hs x).
    unfold Page.stored_hidden. simpl. now rewrite stored_upsert.
  - destruct (unhide_cases db s m) as [(e & _ & ->)|[_ ->]]; simpl; [exact Hs|].
    intros x. simpl.
    rewrite has_delete, andb_true_iff, negb_true_iff, String.eqb_neq, (Hs x).
    unfold Page.stored_hidden. simpl. now rewrite stored_delete.
  - intros x. rewrite (detect_hidden db s). apply Hs.
Qed.

End StoreExtras.

(* ================================================================== *)
(** ** Mounting and refreshing *)

Section MountExtras.
Import Sdk View.

(** Mounting with the storage available.  Since the read of the table
    brings no merchant into the set, every record of the first run has
    [is_hidden] false and is visible, whatever the table lists: a
    merchant hidden in an earlier session is shown again and counted
    among the active subscriptions.  The run lists the merchants a
    detection run lists. *)
Theorem mount_flags_no_record (db : Database) (s : State) :
  fault db = None ->
  let w := Page.onMount (db, s) in
  fst w = db /\
  (forall m, has (hiddenMerchants (snd w)) m = false) /\
  (forall r, In r (subscriptions (snd w)) ->
             is_hidden r = false /\ In r (visibleSubscriptions (snd w))) /\
  (forall key,
     (exists r, In r (subscriptions (snd w)) /\ merchant r = key) <->
     (exists r, In r (Spec.detected db s) /\ merchant r = key)) /\
  Page.activeCount (snd w) = length (subscriptions (snd w)).
Proof.
  intros Hok. unfold Page.onMount. cbv zeta. cbn [fst snd].
  pose proof (load_has db s Hok) as Hhas.
  set (s1 := loadHiddenMerchants (query_hidden db) s) in *.
  assert (Hh : forall m, has (hiddenMerchants (snd (detect (db, s1)))) m = false).
  { intros m. rewrite detect_hidden. apply Hhas. }
  assert (Hnot : forall r, Page.not_hidden (snd (detect (db, s1))) r = true).
  { intros r. unfold Page.not_hidden. now rewrite Hh. }
  assert (Hall : forall (p : Subscription -> bool) l,
             (forall r, p r = true) -> filter p l = l).
  { intros p l Hp. induction l as [|r l IH]; simpl; [reflexivity|].
    now rewrite Hp, IH. }
  assert (Hvis : visibleSubscriptions (snd (detect (db, s1)))
                 = subscriptions (snd (detect (db, s1)))).
  { unfold visibleSubscriptions. apply Hall. intros r. rewrite Hh.
    apply orb_true_r. }
  split; [reflexivity|]. split; [exact Hh|]. split; [|split].
  - intros r Hr. split; [|now rewrite Hvis].
    rewrite (detect_subscriptions db s1 Hok) in Hr.
    apply in_map_iff in Hr as (row & <- & _). apply Hhas.
  - intros key. rewrite (detect_subscriptions db s1 Hok), (detect_ok _ _ Hok).
    split; intros (r & Hr & Hm); apply in_map_iff in Hr as (row & <- & Hrow);
      eexists; (split; [apply in_map, Hrow | exact Hm]).
  - unfold Page.activeCount. now rewrite Hvis, Hall.
Qed.

(** Mounting with the storage unavailable: the failed read of the table
    is silent, the failed detection shows the one error toast, the list
    and the set stay as they were, and a fresh page ends on the screen
    that says no subscriptions were detected. *)
Theorem mount_without_storage (db : Database) (s : State) (e : string) :
  fault db = Some e ->
  let w := Page.onMount (db, s) in
  fst w = db /\
  subscriptions (snd w) = subscriptions s /\
  hiddenMerchants (snd w) = hiddenMerchants s /\
  toasts (snd w) = toast_error "Failed to detect subscriptions" e :: toasts s /\
  (subscriptions s = [] -> Page.screen (snd w) = Page.Empty).
Proof.
  intros Hf. unfold Page.onMount, detect, query, query_hidden. cbv zeta.
  cbn [fst snd]. rewrite Hf. simpl. repeat split.
  intros E. unfold Page.screen. simpl. now rewrite E.
Qed.

(** A detection run touches the list, the loading flag and the toasts
    only: the database, the hidden set, the checkbox and the sort state
    are never changed, the spinner is always gone afterwards, and a toast
    is added only when the query threw. *)
Theorem detection_touches_only_the_list (db : Database) (s : State) :
  let w := detect (db, s) in
  fst w = db /\
  hiddenMerchants (snd w) = hiddenMerchants s /\
  showHidden (snd w) = showHidden s /\
  sortBy (snd w) = sortBy s /\
  sortDesc (snd w) = sortDesc s /\
  isLoading (snd w) = false /\
  Page.screen (snd w) <> Page.Loading /\
  (fault db = None -> toasts (snd w) = toasts s).
Proof.
  unfold detect, query, Page.screen. cbv zeta. cbn [fst snd].
  destruct (fault db) as [e|]; simpl; repeat split; try discriminate;
    destruct (subscriptions s); try discriminate;
    destruct (map _ _); discriminate.
Qed.

End MountExtras.

(* ================================================================== *)
(** ** Visible rows and totals *)

Section TotalsExtras.
Import Num Sdk View.
Local Open Scope Q_scope.

Lemma filter_filter_absorb {A : Type} (p q : A -> bool) l :
  (forall x, p x = true -> q x = true) ->
  filter p (filter q l) = filter p l.
Proof.
  intros H. induction l as [|x l IH]; simpl; [reflexivity|].
  destruct (q x) eqn:Eq; simpl.
  - now rewrite IH.
  - destruct (p x) eqn:Ep; [|exact IH].
    rewrite (H x Ep) in Eq. discriminate.
Qed.






Lemma active_after_hide (h h' : set Key) m (l : list Subscription) :
  (forall x, has h' x = String.eqb x m || has h x) ->
  filter (fun r => negb (has h' (merchant r))) l
  = filter (fun r => negb (String.eqb (merchant r) m))
           (filter (fun r => negb (has h (merchant r))) l).
Proof.
  intros Hh'. induction l as [|r l IH]; simpl; [reflexivity|].
  rewrite Hh'.
  destruct (String.eqb (merchant r) m) eqn:E; simpl.
  - destruct (has h (merchant r)); simpl; [exact IH|]. now rewrite E.
  - destruct (has h (merchant r)); simpl; [exact IH|]. now rewrite E, IH.
Qed.


(** What a hide and a restore do to the table rows.  With hidden rows not
    shown, a hide that goes through removes exactly the rows of that
    merchant from the visible list; a restore that goes through makes the
    records of that merchant visible again and changes no other row.
    With hidden rows shown, every record stays visible. *)
Theorem hide_and_restore_on_visible_rows
  (db : Database) (s : State) (m : string) :
  fault db = None ->
  (showHidden s = false ->
   visibleSubscriptions (snd (hideSubscription m (db, s)))
   = filter (fun r => negb (String.eqb (merchant r) m)) (visibleSubscriptions s)) /\
  (showHidden s = false ->
   forall r, In r (visibleSubscriptions (snd (unhideSubscription m (db, s)))) <->
             In r (subscriptions s) /\
             (merchant r = m \/ In r (visibleSubscriptions s))) /\
  (showHidden s = true ->
   visibleSubscriptions (snd (hideSubscription m (db, s))) = subscriptions s /\
   visibleSubscriptions (snd (unhideSubscription m (db, s))) = subscriptions s).
Proof.
  intros Hok. rewrite (hide_ok _ _ _ Hok), (unhide_ok _ _ _ Hok). cbn [snd].
  unfold visibleSubscriptions. simpl. split; [|split]; intros Hs; rewrite Hs; simpl.
  - apply active_after_hide, has_add.
  - intros r. rewrite !filter_In, has_delete.
    destruct (String.eqb_spec (merchant r) m) as [E|E]; simpl.
    + tauto.
    + intuition congruence.
  - split; induction (subscriptions s) as [|r l IH]; simpl; congruence.
Qed.

End TotalsExtras.

(* ================================================================== *)
(** ** The sorted table *)

Section Stability.

Context {A : Type}.
Variable leb : A -> A -> bool.
Variable p : A -> bool.
Hypothesis ties : forall a b, p a = true -> p b = true -> leb a b = true.

Lemma insert_by_filter x l :
  filter p (insert_by leb x l) = if p x then x :: filter p l else filter p l.
Proof.
  induction l as [|y l IH]; simpl; [reflexivity|].
  destruct (leb x y) eqn:E; simpl; [reflexivity|].
  rewrite IH. destruct (p x) eqn:Ex, (p y) eqn:Ey; try reflexivity.
  rewrite (ties x y Ex Ey) in E. discriminate.
Qed.

(** The insertion sort is stable: elements that tie keep their order. *)
Lemma sort_by_stable l : filter p (sort_by leb l) = filter p l.
Proof.
  induction l as [|x l IH]; simpl; [reflexivity|].
  rewrite insert_by_filter, IH. reflexivity.
Qed.

End Stability.

Section SortExtras.
Import Num View.

Lemma inject_Z_nonpos z : (inject_Z z <= 0)%Q <-> z <= 0.
Proof. change 0%Q with (inject_Z 0). now rewrite <- Zle_Qle. Qed.

Lemma inject_Z_opp_nonpos z : (- inject_Z z <= 0)%Q <-> 0 <= z.
Proof.
  rewrite <- inject_Z_opp, inject_Z_nonpos. lia.
Qed.

(** The comparator is not positive exactly when the pair is in order. *)
Lemma comparator_in_order lc by_ desc a b :
  Qle_bool (comparator lc by_ desc a b) 0 = true <-> Page.in_order lc by_ desc a b.
Proof.
  rewrite Qle_bool_iff. unfold comparator, Page.in_order.
  destruct by_, desc;
    rewrite ?inject_Z_opp_nonpos, ?inject_Z_nonpos; try lia;
    split; intros H; Lqa.lra.
Qed.

Lemma in_order_total lc by_ desc :
  (by_ = by_merchant -> Page.collation lc) ->
  forall a b, Page.in_order lc by_ desc a b \/ Page.in_order lc by_ desc b a.
Proof.
  intros Hc a b. unfold Page.in_order. destruct by_, desc; try lia.
  - destruct (Qlt_le_dec (annual_cost a) (annual_cost b)); auto using Qlt_le_weak.
  - destruct (Qlt_le_dec (annual_cost a) (annual_cost b)); auto using Qlt_le_weak.
  - destruct (Hc eq_refl) as [Hsw _].
    destruct (Z_le_gt_dec 0 (lc (merchant a) (merchant b))) as [H|H]; [now left|].
    right. apply Hsw. lia.
  - destruct (Hc eq_refl) as [Hsw _].
    destruct (Z_le_gt_dec (lc (merchant a) (merchant b)) 0) as [H|H]; [now left|].
    right. apply Hsw. lia.
Qed.

Lemma in_order_trans lc by_ desc :
  (by_ = by_merchant -> Page.collation lc) ->
  forall a b c, Page.in_order lc by_ desc a b -> Page.in_order lc by_ desc b c ->
                Page.in_order lc by_ desc a c.
Proof.
  intros Hc a b c. unfold Page.in_order. destruct by_, desc; try lia.
  - intros; eapply Qle_trans; eauto.
  - intros; eapply Qle_trans; eauto.
  - destruct (Hc eq_refl) as [Hsw Htr]. intros H1 H2.
    apply Hsw. apply Hsw in H1. apply Hsw in H2. eapply Htr; eauto.
  - destruct (Hc eq_refl) as [_ Htr]. apply Htr.
Qed.

(** The table holds the visible records, each once, in the order of the
    selected column and direction: by annual cost or by date of the last
    charge always, by merchant provided [localeCompare] orders strings. *)
Theorem table_is_in_the_selected_order
  (localeCompare : string -> string -> Z) (s : State) :
  (sortBy s = by_merchant -> Page.collation localeCompare) ->
  StronglySorted (Page.in_order localeCompare (sortBy s) (sortDesc s))
                 (sortedSubscriptions localeCompare s) /\
  Permutation (visibleSubscriptions s) (sortedSubscriptions localeCompare s).
Proof.
  intros Hc. split; [|apply sort_by_perm].
  unfold sortedSubscriptions.
  eapply StronglySorted_weaken; [intros a b; apply comparator_in_order|].
  apply sort_by_sorted.
  - intros a b. rewrite !comparator_in_order. now apply in_order_total.
  - intros a b c. rewrite !comparator_in_order. now apply in_order_trans.
Qed.

(** The sort of the table is stable: records with the same annual cost
    (when that is the column) or the same date of last charge (when that
    is the column) stand in the table in the order they have in the
    visible list, in either direction. *)
Theorem equal_rows_keep_their_order
  (localeCompare : string -> string -> Z) (s : State) :
  (sortBy s = by_annual_cost ->
   forall k, filter (fun r => Qeq_bool (annual_cost r) k)
                    (sortedSubscriptions localeCompare s)
             = filter (fun r => Qeq_bool (annual_cost r) k)
                      (visibleSubscriptions s)) /\
  (sortBy s = by_last_charge ->
   forall d, filter (fun r => last_charge r =? d)
                    (sortedSubscriptions localeCompare s)
             = filter (fun r => last_charge r =? d) (visibleSubscriptions s)).
Proof.
  unfold sortedSubscriptions. split; intros Hby; rewrite Hby; intros k;
    apply sort_by_stable; intros a b Ha Hb; apply comparator_in_order.
  - apply Qeq_bool_iff in Ha, Hb. unfold Page.in_order.
    destruct (sortDesc s); rewrite Ha, Hb; apply Qle_refl.
  - apply Z.eqb_eq in Ha, Hb. unfold Page.in_order.
    destruct (sortDesc s); lia.
Qed.

(** Clicks on a column header.  A click always selects the column; on a
    column that was not selected the direction becomes descending; two
    clicks on the selected column bring the state back; and a click
    changes neither the records, nor the hidden set, nor the totals. *)
Theorem header_clicks (column : SortBy) (s : State) :
  sortBy (Page.toggleSort column s) = column /\
  (sortBy s <> column -> sortDesc (Page.toggleSort column s) = true) /\
  (sortBy s = column ->
   sortDesc (Page.toggleSort column s) = negb (sortDesc s) /\
   Page.toggleSort column (Page.toggleSort column s) = s) /\
  visibleSubscriptions (Page.toggleSort column s) = visibleSubscriptions s /\
  Page.totalAnnualCost (Page.toggleSort column s) = Page.totalAnnualCost s.
Proof.
  unfold Page.toggleSort.
  destruct s as [subs h ld sh by_ desc ts]. simpl.
  destruct by_, column; simpl;
    (split; [reflexivity|]);
    (split; [intros H; try reflexivity; now elim H|]);
    (split; [intros H;
             first [discriminate H
                   | split; [reflexivity | now rewrite negb_involutive]]|]);
    split; reflexivity.
Qed.

End SortExtras.

(* ================================================================== *)
(** ** Quoting *)

Section QuotingExtras.
Import Sdk View.

(** The doubling of quotes loses nothing: the database reads the literal
    that hide and restore build back as the merchant itself, whatever
    quotes the merchant contains; two merchants never share a literal, nor
    a transactions filter. *)
Theorem quoting_is_lossless (m m' : string) :
  read_literal (escape_quotes m) = Some m /\
  (escape_quotes m = escape_quotes m' -> m = m') /\
  (Page.viewTransactions m = Page.viewTransactions m' -> m = m').
Proof.
  assert (Hinj : escape_quotes m = escape_quotes m' -> m = m').
  { intros E. pose proof (read_escape m) as H. rewrite E, read_escape in H.
    congruence. }
  split; [apply read_escape|]. split; [exact Hinj|].
  unfold Page.viewTransactions. intros [= E].
  apply Hinj.
  revert E. generalize (escape_quotes m) (escape_quotes m').
  induction s as [|c s IH]; intros [|c' s']; simpl; intros E; try reflexivity.
  - destruct s'; discriminate.
  - destruct s; discriminate.
  - injection E as -> E. f_equal. now apply IH.
Qed.

End QuotingExtras.

(* ================================================================== *)
(** ** Detection and the calendar *)

Section SortMap.

Context {A B : Type}.
Variable f : A -> B.
Variable leb : A -> A -> bool.
Variable leb' : B -> B -> bool.
Hypothesis leb_f : forall a b, leb' (f a) (f b) = leb a b.

Lemma insert_by_map x l :
  insert_by leb' (f x) (map f l) = map f (insert_by leb x l).
Proof.
  induction l as [|y l IH]; simpl; [reflexivity|].
  rewrite leb_f. destruct (leb x y); simpl; [reflexivity|]. now rewrite IH.
Qed.

(** Sorting commutes with a map that keeps the order. *)
Lemma sort_by_map l : sort_by leb' (map f l) = map f (sort_by leb l).
Proof.
  induction l as [|x l IH]; simpl; [reflexivity|].
  now rewrite IH, insert_by_map.
Qed.

End SortMap.

Section CalendarExtras.
Import Num Sql.

Variable k : Z.

Let shiftc (c : Charge) : Charge := mkCharge (c_merchant c) (c_amount c) (c_date c + k).
Let shiftmi (r : MerchantInterval) : MerchantInterval :=
  mkMI (mi_merchant r) (mi_amount r) (mi_date r + k) (mi_interval_days r).
Let shiftrow (r : Row) : Row :=
  mkRow (merchant r) (avg_amount r) (occurrence_count r) (avg_interval r)
        (stddev_interval r) (last_charge r + k) (first_charge r + k).

Lemma charges_shift txs :
  charges (Page.shift_ledger k txs) = map shiftc (charges txs).
Proof.
  induction txs as [|t txs IH]; simpl; [reflexivity|].
  unfold where_charge. simpl. destruct (description t) as [d|]; [|exact IH].
  destruct (Qlt_bool (amount t) 0 && negb (d =? ""))%string; simpl;
    [now rewrite IH | exact IH].
Qed.

Lemma filter_map_swap {X Y : Type} (g : X -> Y) (p : Y -> bool) l :
  filter p (map g l) = map g (filter (fun x => p (g x)) l).
Proof.
  induction l as [|x l IH]; simpl; [reflexivity|].
  destruct (p (g x)); simpl; now rewrite IH.
Qed.

Lemma partition_shift rows d :
  partition (map shiftc rows) d = map shiftc (partition rows d).
Proof.
  unfold partition. rewrite filter_map_swap. simpl.
  apply sort_by_map. intros a b. unfold date_leb. simpl.
  destruct (Z.leb_spec (c_date a + k) (c_date b + k)),
           (Z.leb_spec (c_date a) (c_date b)); try reflexivity; lia.
Qed.

Lemma intervals_of_shifted p l :
  merchant_intervals (LAG (option_map (fun d => d + k) p) (map shiftc l))
  = map shiftmi (merchant_intervals (LAG p l)).
Proof.
  revert p. induction l as [|c l IH]; intros p; simpl; [reflexivity|].
  specialize (IH (Some (c_date c))). simpl in IH.
  destruct p as [d|]; simpl; rewrite IH; [|reflexivity].
  f_equal. unfold shiftmi. simpl. f_equal. lia.
Qed.

Lemma merchant_intervals_shift txs :
  merchant_intervals (merchant_transactions (Page.shift_ledger k txs))
  = map shiftmi (merchant_intervals (merchant_transactions txs)).
Proof.
  unfold merchant_transactions. cbv zeta. rewrite charges_shift, map_map. simpl.
  rewrite !merchant_intervals_flat_map.
  induction (distinct (map c_merchant (charges txs))) as [|d ds IH]; simpl;
    [reflexivity|].
  rewrite map_app, IH, partition_shift. f_equal.
  apply (intervals_of_shifted None).
Qed.

Lemma group_shift rows m :
  group (map shiftmi rows) m = map shiftmi (group rows m).
Proof. unfold group. now rewrite filter_map_swap. Qed.

Lemma MAX_shift l : l <> [] -> MAX (map (fun d => d + k) l) = MAX l + k.
Proof.
  destruct l as [|x l]; [congruence|]. intros _. simpl.
  induction l as [|y l IH]; simpl; [reflexivity|]. rewrite IH. lia.
Qed.

Lemma MIN_shift l : l <> [] -> MIN (map (fun d => d + k) l) = MIN l + k.
Proof.
  destruct l as [|x l]; [congruence|]. intros _. simpl.
  induction l as [|y l IH]; simpl; [reflexivity|]. rewrite IH. lia.
Qed.

Lemma aggregate_shift m g :
  g <> [] -> aggregate m (map shiftmi g) = shiftrow (aggregate m g).
Proof.
  intros Hg. unfold aggregate, shiftrow, intervals. simpl.
  assert (E1 : map (fun r => Qabs (mi_amount r)) (map shiftmi g)
               = map (fun r => Qabs (mi_amount r)) g)
    by (rewrite map_map; reflexivity).
  assert (E2 : map (fun r => inject_Z (mi_interval_days r)) (map shiftmi g)
               = map (fun r => inject_Z (mi_interval_days r)) g)
    by (rewrite map_map; reflexivity).
  assert (E3 : map mi_date (map shiftmi g) = map (fun d => d + k) (map mi_date g))
    by (rewrite !map_map; reflexivity).
  assert (E4 : COUNT (map shiftmi g) = COUNT g)
    by (unfold COUNT; now rewrite length_map).
  rewrite E1, E2, E3, E4.
  rewrite MAX_shift, MIN_shift by (destruct g; [congruence|discriminate]).
  reflexivity.
Qed.

Lemma having_shift g : having (map shiftmi g) = having g.
Proof.
  unfold having, intervals, COUNT. rewrite length_map, map_map. reflexivity.
Qed.

Lemma merchant_stats_shift rows :
  merchant_stats (map shiftmi rows) = map shiftrow (merchant_stats rows).
Proof.
  unfold merchant_stats.
  assert (E : map mi_merchant (map shiftmi rows) = map mi_merchant rows)
    by (rewrite map_map; reflexivity).
  rewrite E.
  rewrite (filter_ext (fun m => having (group (map shiftmi rows) m))
                      (fun m => having (group rows m)))
    by (intros m; now rewrite group_shift, having_shift).
  rewrite map_map. apply map_ext_in. intros m Hm. rewrite group_shift.
  apply aggregate_shift.
  apply filter_In in Hm as [Hm _]. rewrite distinct_In in Hm.
  apply in_map_iff in Hm as (r & Er & Hr).
  intros E0.
  assert (Hin : In r (group rows m)).
  { unfold group. apply filter_In. split; [exact Hr|]. now apply String.eqb_eq. }
  rewrite E0 in Hin. destruct Hin.
Qed.

Lemma subscription_query_shift txs :
  subscription_query (Page.shift_ledger k txs)
  = map shiftrow (subscription_query txs).
Proof.
  unfold subscription_query.
  rewrite merchant_intervals_shift, merchant_stats_shift.
  apply sort_by_map. reflexivity.
Qed.

Lemma NoDup_map_eq {X Y : Type} (f : X -> Y) l a b :
  NoDup (map f l) -> In a l -> In b l -> f a = f b -> a = b.
Proof.
  induction l as [|x l IH]; simpl; [tauto|]. intros Hnd Ha Hb E.
  inversion Hnd as [|? ? Hx Hnd']; subst.
  destruct Ha as [->|Ha], Hb as [->|Hb]; [reflexivity| | |now apply IH].
  - elim Hx. rewrite E. now apply in_map.
  - elim Hx. rewrite <- E. now apply in_map.
Qed.

Lemma detected_shift (db db' : Sdk.Database) (s : View.State) :
  Sdk.fault db = None -> Sdk.fault db' = None ->
  Sdk.transactions db' = Page.shift_ledger k (Sdk.transactions db) ->
  Spec.detected db' s = map (Page.shift_record k) (Spec.detected db s).
Proof.
  intros Hok Hok' E.
  rewrite (detect_ok _ _ Hok), (detect_ok _ _ Hok'), E.
  rewrite subscription_query_shift, !map_map. reflexivity.
Qed.

(** Detection looks at gaps, not at the calendar.  On a ledger moved as a
    whole by [k] days a merchant is detected exactly when it was detected
    before, and its record has the same interval, frequency label and
    occurrence count, with [last_charge] and [first_charge] moved by [k]
    days. *)
Theorem detection_follows_the_calendar
  (db db' : Sdk.Database) (s : View.State) (key : string) :
  Sdk.fault db = None -> Sdk.fault db' = None ->
  Sdk.transactions db' = Page.shift_ledger k (Sdk.transactions db) ->
  ((exists r, In r (Spec.detected db s) /\ View.merchant r = key) <->
   (exists r', In r' (Spec.detected db' s) /\ View.merchant r' = key)) /\
  (forall r r',
     In r (Spec.detected db s) -> In r' (Spec.detected db' s) ->
     View.merchant r = key -> View.merchant r' = key ->
     View.interval_days r' = View.interval_days r /\
     View.frequency r' = View.frequency r /\
     View.occurrence_count r' = View.occurrence_count r /\
     View.last_charge r' = View.last_charge r + k /\
     View.first_charge r' = View.first_charge r + k).
Proof.
  intros Hok Hok' E. rewrite (detected_shift db db' s Hok Hok' E). split.
  - split.
    + intros (r & Hr & Hm). exists (Page.shift_record k r).
      split; [now apply in_map | exact Hm].
    + intros (r' & Hr' & Hm). apply in_map_iff in Hr' as (r & <- & Hr).
      exists r. split; [exact Hr | exact Hm].
  - intros r r' Hr Hr' Hm Hm'. apply in_map_iff in Hr' as (r0 & <- & Hr0).
    assert (E0 : r0 = r).
    { apply (NoDup_map_eq View.merchant (Spec.detected db s));
        [now apply detected_merchants_NoDup | exact Hr0 | exact Hr |].
      simpl in Hm'. congruence. }
    subst r0. simpl. auto.
Qed.

End CalendarExtras.

(* ================================================================== *)
(** ** How many records a ledger can give *)

Section CountExtras.
Import Sql.

Lemma filter_split_length {X : Type} (p : X -> bool) l :
  (length (filter p l) + length (filter (fun x => negb (p x)) l) = length l)%nat.
Proof.
  induction l as [|x l IH]; simpl; [reflexivity|].
  destruct (p x); simpl; lia.
Qed.

(** Disjoint clusters cannot hold more charges than there are. *)
Lemma clusters_fit ms : forall rows,
  NoDup ms ->
  (forall m, In m ms ->
     (3 <= length (filter (fun c => String.eqb (c_merchant c) m) rows))%nat) ->
  (3 * length ms <= length rows)%nat.
Proof.
  induction ms as [|m ms IH]; intros rows Hnd H3; simpl; [lia|].
  inversion Hnd as [|? ? Hm Hnd']; subst.
  pose proof (filter_split_length (fun c => String.eqb (c_merchant c) m) rows) as Hs.
  pose proof (H3 m (or_introl eq_refl)) as Hm3.
  assert (Hrest : (3 * length ms
                   <= length (filter (fun c => negb (String.eqb (c_merchant c) m)) rows))%nat).
  { apply IH; [exact Hnd'|]. intros m' Hm'.
    rewrite filter_filter_absorb.
    - apply H3. now right.
    - intros c Hc. apply String.eqb_eq in Hc. rewrite Hc.
      apply negb_true_iff, String.eqb_neq. intros ->. contradiction. }
  lia.
Qed.

(** Every record stands for at least three charges of its own, so a
    ledger never gives more records than a third of its transactions. *)
Theorem at_most_a_third_are_records (db : Sdk.Database) (s : View.State) :
  Sdk.fault db = None ->
  (3 * length (Spec.detected db s) <= length (Sdk.transactions db))%nat.
Proof.
  intros Hok.
  assert (Hc : (length (charges (Sdk.transactions db))
                <= length (Sdk.transactions db))%nat).
  { induction (Sdk.transactions db) as [|t l IH]; simpl; [lia|].
    destruct (where_charge t); simpl; lia. }
  rewrite (detect_ok _ _ Hok), length_map.
  rewrite <- (length_map merchant).
  etransitivity; [|exact Hc].
  apply clusters_fit; [apply subscription_query_NoDup|].
  intros m Hm. apply in_map_iff in Hm as (row & <- & Hrow).
  destruct (row_cluster_size _ _ Hrow) as [_ H3].
  unfold Spec.cluster, partition in H3. now rewrite sort_by_length in H3.
Qed.

End CountExtras.

(* ================================================================== *)
(** ** The further properties at work on the sample ledgers *)

Section MoreInstances.
Import Num Ledger.
Local Open Scope string_scope.

Lemma one_record_per_merchant_witness :
  Sdk.fault (db_of two_plans) = None /\
  NoDup (map View.merchant (Spec.detected (db_of two_plans) View.initial)).
Proof.
  split; [reflexivity|].
  apply (one_record_per_merchant (db_of two_plans) View.initial). reflexivity.
Defined.

Lemma occurrence_count_counts_debits_witness :
  Sdk.fault (db_of gym) = None /\
  In gym_record (Spec.detected (db_of gym) View.initial) /\
  View.occurrence_count gym_record
  = Z.of_nat (length (filter (Page.is_debit_of "GYM") gym)).
Proof.
  assert (Hin : In gym_record (Spec.detected (db_of gym) View.initial))
    by (vm_compute; left; reflexivity).
  split; [reflexivity|]. split; [exact Hin|].
  destruct (occurrence_count_counts_debits (db_of gym) View.initial gym_record
              eq_refl Hin) as [_ H].
  exact H.
Defined.

Lemma non_charges_are_ignored_witness :
  (0 <= Sql.amount (charge "GYM" 40 15))%Q /\
  Sql.subscription_query (gym ++ charge "GYM" 40 15 :: twice)
  = Sql.subscription_query (gym ++ twice).
Proof.
  assert (H : (0 <= Sql.amount (charge "GYM" 40 15))%Q)
    by (apply Qle_bool_iff; reflexivity).
  split; [exact H|].
  apply (non_charges_are_ignored gym twice (charge "GYM" 40 15)).
  right. right. exact H.
Defined.


Lemma acceptance_ignores_amounts_witness :
  let uneven := [charge "GYM" (-1) 0; charge "GYM" (-500) 31; charge "GYM" (-7) 61] in
  Sdk.fault (db_of gym) = None /\ Sdk.fault (db_of uneven) = None /\
  map Sql.c_date (Spec.cluster gym "GYM") = map Sql.c_date (Spec.cluster uneven "GYM") /\
  ((exists r, In r (Spec.detected (db_of gym) View.initial) /\ View.merchant r = "GYM") <->
   (exists r', In r' (Spec.detected (db_of uneven) View.initial) /\ View.merchant r' = "GYM")).
Proof.
  cbv zeta. split; [reflexivity|]. split; [reflexivity|]. split; [reflexivity|].
  destruct (acceptance_ignores_amounts (db_of gym)
              (db_of [charge "GYM" (-1) 0; charge "GYM" (-500) 31; charge "GYM" (-7) 61])
              View.initial View.initial "GYM" eq_refl eq_refl eq_refl) as [H _].
  exact H.
Defined.

Lemma earliest_charge_is_left_out_witness :
  Sdk.fault (db_of upfront) = None /\
  exists r, In r (Spec.detected (db_of upfront) View.initial) /\
  exists t0 t1 later,
    Permutation (t0 :: t1 :: later) (Spec.charges_of upfront (View.merchant r)) /\
    View.first_charge r = Sql.transaction_date t1.
Proof.
  split; [reflexivity|].
  assert (Hin : In (View.mkSubscription "BOX" (F64.to_double 10) "monthly" 30 3
                      (F64.to_double (12167 # 100)) 60 30 false)
                   (Spec.detected (db_of upfront) View.initial))
    by (vm_compute; left; reflexivity).
  eexists. split; [exact Hin|].
  destruct (earliest_charge_is_left_out (db_of upfront) View.initial _
              eq_refl Hin) as (t0 & t1 & later & E & _ & _ & F & _).
  exists t0, t1, later. split; [exact E | exact F].
Defined.

Lemma last_charge_is_latest_witness :
  Sdk.fault (db_of gym) = None /\
  In gym_record (Spec.detected (db_of gym) View.initial) /\
  (forall c, In c (Spec.cluster gym "GYM") ->
             Sql.c_date c <= View.last_charge gym_record).
Proof.
  assert (Hin : In gym_record (Spec.detected (db_of gym) View.initial))
    by (vm_compute; left; reflexivity).
  split; [reflexivity|]. split; [exact Hin|].
  destruct (last_charge_is_latest (db_of gym) View.initial gym_record
              eq_refl Hin) as [_ H].
  exact H.
Defined.

Lemma rounding_stays_close_witness :
  Sdk.fault (db_of gym) = None /\
  In gym_record (Spec.detected (db_of gym) View.initial) /\
  (0 <= View.amount gym_record)%Q /\ (0 <= View.annual_cost gym_record)%Q.
Proof.
  assert (Hin : In gym_record (Spec.detected (db_of gym) View.initial))
    by (vm_compute; left; reflexivity).
  split; [reflexivity|]. split; [exact Hin|].
  destruct (rounding_stays_close (db_of gym) View.initial gym_record
              eq_refl Hin) as (t0 & later & _ & _ & H).
  cbv zeta in H. destruct H as (_ & _ & _ & H1 & H2).
  split; [exact H1 | exact H2].
Defined.

Lemma detection_follows_the_calendar_witness :
  Sdk.fault (db_of gym) = None /\
  Sdk.fault (db_of (Page.shift_ledger 365 gym)) = None /\
  ((exists r, In r (Spec.detected (db_of gym) View.initial)
              /\ View.merchant r = "GYM") <->
   (exists r', In r' (Spec.detected (db_of (Page.shift_ledger 365 gym)) View.initial)
               /\ View.merchant r' = "GYM")).
Proof.
  split; [reflexivity|]. split; [reflexivity|].
  destruct (detection_follows_the_calendar 365 (db_of gym)
              (db_of (Page.shift_ledger 365 gym)) View.initial "GYM"
              eq_refl eq_refl eq_refl) as [H _].
  exact H.
Defined.

Lemma at_most_a_third_are_records_witness :
  Sdk.fault (db_of two_plans) = None /\
  (3 * length (Spec.detected (db_of two_plans) View.initial)
   <= length two_plans)%nat.
Proof.
  split; [reflexivity|].
  apply (at_most_a_third_are_records (db_of two_plans) View.initial). reflexivity.
Defined.

Lemma hide_unhide_leave_others_alone_witness :
  "CLOUD" <> "GYM" /\
  View.has (View.hiddenMerchants
              (snd (View.hideSubscription "GYM" (db_of gym, View.initial)))) "CLOUD"
  = View.has (View.hiddenMerchants View.initial) "CLOUD".
Proof.
  assert (H : "CLOUD" <> "GYM") by discriminate.
  split; [exact H|].
  destruct (hide_unhide_leave_others_alone (db_of gym) View.initial "GYM" "CLOUD" H)
    as [(_ & E & _) _].
  exact E.
Defined.

Lemma hide_then_unhide_restores_witness :
  Sdk.fault (db_of gym) = None /\
  fst (View.unhideSubscription "GYM"
         (View.hideSubscription "GYM" (db_of gym, View.initial)))
  = db_of gym.
Proof.
  split; [reflexivity|].
  destruct (hide_then_unhide_restores (db_of gym) View.initial "GYM" eq_refl
              (fun H : In "GYM" [] => H)
              (fun H : In (View.str "GYM") [] => H)) as [E _].
  exact E.
Defined.

Lemma load_reads_no_merchant_witness :
  let db := fst (View.hideSubscription "GYM" (db_of gym, View.initial)) in
  Sdk.fault db = None /\
  Page.stored_hidden db = ["GYM"] /\
  View.has (View.hiddenMerchants
              (View.loadHiddenMerchants (Sdk.query_hidden db) View.initial)) "GYM"
  = false.
Proof.
  cbv zeta. split; [reflexivity|]. split; [reflexivity|].
  destruct (load_reads_no_merchant
              (fst (View.hideSubscription "GYM" (db_of gym, View.initial)))
              View.initial eq_refl) as [H _].
  apply H.
Defined.

Lemma actions_keep_set_in_sync_witness :
  Page.in_sync (db_of gym) View.initial /\
  Page.in_sync (fst (View.hideSubscription "GYM" (db_of gym, View.initial)))
               (snd (View.hideSubscription "GYM" (db_of gym, View.initial))).
Proof.
  assert (H : Page.in_sync (db_of gym) View.initial).
  { intros m. split; [discriminate | intros []]. }
  split; [exact H|].
  destruct (actions_keep_set_in_sync (db_of gym) View.initial "GYM" H) as [E _].
  exact E.
Defined.

Lemma mount_flags_no_record_witness :
  let db := fst (View.hideSubscription "GYM" (db_of gym, View.initial)) in
  Sdk.fault db = None /\
  Page.stored_hidden db = ["GYM"] /\
  forall r, In r (View.subscriptions (snd (Page.onMount (db, View.initial)))) ->
            View.is_hidden r = false.
Proof.
  cbv zeta. split; [reflexivity|]. split; [reflexivity|].
  destruct (mount_flags_no_record
              (fst (View.hideSubscription "GYM" (db_of gym, View.initial)))
              View.initial eq_refl) as (_ & _ & H & _).
  intros r Hr. exact (proj1 (H r Hr)).
Defined.

Lemma mount_without_storage_witness :
  Sdk.fault (offline (db_of gym)) = Some "database is locked" /\
  Page.screen (snd (Page.onMount (offline (db_of gym), View.initial))) = Page.Empty.
Proof.
  split; [reflexivity|].
  destruct (mount_without_storage (offline (db_of gym)) View.initial
              "database is locked" eq_refl) as (_ & _ & _ & _ & H).
  apply H. reflexivity.
Defined.


Lemma hide_and_restore_on_visible_rows_witness :
  let s := snd (View.detect (db_of two_plans, View.initial)) in
  Sdk.fault (db_of two_plans) = None /\
  View.showHidden s = false /\
  View.visibleSubscriptions (snd (View.hideSubscription "A" (db_of two_plans, s)))
  = filter (fun r => negb (String.eqb (View.merchant r) "A"))
           (View.visibleSubscriptions s).
Proof.
  cbv zeta. split; [reflexivity|]. split; [reflexivity|].
  destruct (hide_and_restore_on_visible_rows (db_of two_plans)
              (snd (View.detect (db_of two_plans, View.initial))) "A" eq_refl)
    as [H _].
  apply H. reflexivity.
Defined.

Lemma table_is_in_the_selected_order_witness :
  let s := Page.toggleSort View.by_merchant
             (snd (View.detect (db_of two_plans, View.initial))) in
  View.sortBy s = View.by_merchant /\
  Page.collation Page.by_length /\
  StronglySorted (Page.in_order Page.by_length (View.sortBy s) (View.sortDesc s))
                 (View.sortedSubscriptions Page.by_length s).
Proof.
  cbv zeta.
  assert (Hc : Page.collation Page.by_length).
  { unfold Page.collation, Page.by_length. split; intros; lia. }
  split; [reflexivity|]. split; [exact Hc|].
  destruct (table_is_in_the_selected_order Page.by_length
              (Page.toggleSort View.by_merchant
                 (snd (View.detect (db_of two_plans, View.initial))))
              (fun _ => Hc)) as [H _].
  exact H.
Defined.

End MoreInstances.
